(** * generate_map.py: crawl of the event calendar, marker resolution, map assembly

    A shallow embedding of [src/generate_map.py].  Python strings are
    [string]s whose characters are read as the code points U+0000..U+00FF;
    a Python [float] is an IEEE-754 binary64 value ([spec_float] with
    precision 53 and maximal exponent 1024); exceptions are a sum type
    threaded through a state monad that carries the network, the console
    and the file system. *)

From Stdlib Require Import ZArith String Ascii List Lia Bool Permutation.
From Stdlib Require Import SpecFloat DecimalString.
From stdpp Require Import gmap strings.

Set Default Proof Using "Type*".

#[local] Arguments String.append !_ _ / : simpl nomatch.

(** ** Characters and strings *)

Module Chars.

Definition code (c : ascii) : nat := nat_of_ascii c.

Definition between (lo hi : nat) (c : ascii) : bool :=
  (lo <=? code c)%nat && (code c <=? hi)%nat.

(** [\d] of a [str] pattern: the decimal digits (below U+0100 these are
    exactly ['0'..'9']). *)
Definition is_digit (c : ascii) : bool := between 48 57 c.

(** [\s] of a [str] pattern, i.e. [str.isspace]: below U+0100 these are
    TAB..CR, FS..US, SPACE, NEL and NBSP. *)
Definition is_space (c : ascii) : bool :=
  between 9 13 c || between 28 32 c
  || (code c =? 133)%nat || (code c =? 160)%nat.

Definition is_lower (c : ascii) : bool := between 97 122 c.
Definition is_upper (c : ascii) : bool := between 65 90 c.

Definition to_upper (c : ascii) : ascii :=
  if is_lower c then ascii_of_nat (code c - 32) else c.
Definition to_lower (c : ascii) : ascii :=
  if is_upper c then ascii_of_nat (code c + 32) else c.

Definition one (a : ascii) (c : ascii) : bool := Ascii.eqb a c.

(** The double quote, which the popup markup needs. *)
Definition dquote : ascii := ascii_of_nat 34.

End Chars.

Module Str.

(** [s[i:j]] for [0 <= i <= j]. *)
Definition slice (i j : nat) (s : string) : string := substring i (j - i) s.

(** [needle in hay]. *)
Fixpoint contains (needle hay : string) : bool :=
  String.prefix needle hay ||
  match hay with
  | EmptyString => false
  | String _ t => contains needle t
  end.

Fixpoint all (p : ascii -> bool) (s : string) : bool :=
  match s with
  | EmptyString => true
  | String c t => p c && all p t
  end.

(** [s.removeprefix(p)] *)
Definition removeprefix (p s : string) : string :=
  if String.prefix p s
  then substring (String.length p) (String.length s - String.length p) s
  else s.

Fixpoint endswith_at (suf s : string) (n : nat) : bool :=
  match n, s with
  | O, _ => String.eqb suf s
  | S n', String _ t => endswith_at suf t n'
  | S _, EmptyString => false
  end.

Definition endswith (suf s : string) : bool :=
  (String.length suf <=? String.length s)%nat
  && endswith_at suf s (String.length s - String.length suf).

(** [s.removesuffix(suf)] *)
Definition removesuffix (suf s : string) : string :=
  if endswith suf s
  then substring 0 (String.length s - String.length suf) s
  else s.

(** [s.replace(a, b)] for a one-character [a]. *)
Fixpoint replace_char (a : ascii) (b : string) (s : string) : string :=
  match s with
  | EmptyString => EmptyString
  | String c t =>
      if Ascii.eqb c a then b +:+ replace_char a b t
      else String c (replace_char a b t)
  end.

(** [s.title()]: a cased character is upper-cased after an uncased one
    and lower-cased after a cased one.  The cased characters here are the
    ASCII letters, so this is [str.title] on texts written in ASCII;
    Python also cases the letters of Latin-1 beyond ASCII, some of them
    to characters beyond U+00FF.  A statement that gives a title as its
    result is about a text written in ASCII. *)
Fixpoint title_from (prev_cased : bool) (s : string) : string :=
  match s with
  | EmptyString => EmptyString
  | String c t =>
      if Chars.is_lower c then
        String (if prev_cased then c else Chars.to_upper c) (title_from true t)
      else if Chars.is_upper c then
        String (if prev_cased then Chars.to_lower c else c) (title_from true t)
      else String c (title_from false t)
  end.

Definition title (s : string) : string := title_from false s.

(** [str(n)] for a natural number. *)
Definition of_nat (n : nat) : string := NilZero.string_of_uint (Nat.to_uint n).

(** Zero-padded to at least two digits, as [%d] and [%m] print. *)
Definition of_nat2 (n : nat) : string :=
  if (n <? 10)%nat then String "0"%char (of_nat n) else of_nat n.

End Str.

(** ** The fragment of [re] the program uses

    Backtracking matcher in continuation-passing style: alternatives are
    tried left to right, repetition is greedy and gives characters back
    when the rest of the pattern fails.  Repetition is only ever applied
    to a character class in the program's patterns. *)

Module Re.

Inductive regex : Type :=
| Eps
| Chr (p : ascii -> bool)
| Cat (r1 r2 : regex)
| Alt (r1 r2 : regex)
| Star (p : ascii -> bool)
| Grp (i : nat) (r : regex).

Fixpoint lit (s : string) : regex :=
  match s with
  | EmptyString => Eps
  | String c t => Cat (Chr (Chars.one c)) (lit t)
  end.

Definition plus (p : ascii -> bool) : regex := Cat (Chr p) (Star p).

Fixpoint seq (rs : list regex) : regex :=
  match rs with
  | [] => Eps
  | r :: rs' => Cat r (seq rs')
  end.

Fixpoint alts (r : regex) (rs : list regex) : regex :=
  match rs with
  | [] => r
  | r' :: rs' => Alt r (alts r' rs')
  end.

(** Spans of the groups closed so far, most recent first. *)
Definition captures := list (nat * (nat * nat)).

Fixpoint span_of (i : nat) (caps : captures) : option (nat * nat) :=
  match caps with
  | [] => None
  | (j, sp) :: rest => if (i =? j)%nat then Some sp else span_of i rest
  end.

Section Matcher.
Context {R : Type}.

Definition cont := string -> nat -> captures -> option R.

Fixpoint star_loop (p : ascii -> bool) (caps : captures) (k : cont)
         (s : string) (pos : nat) : option R :=
  match s with
  | String c t =>
      if p c then
        match star_loop p caps k t (S pos) with
        | Some x => Some x
        | None => k s pos caps
        end
      else k s pos caps
  | EmptyString => k s pos caps
  end.

Fixpoint rmatch (r : regex) (s : string) (pos : nat) (caps : captures)
         (k : cont) : option R :=
  match r with
  | Eps => k s pos caps
  | Chr p =>
      match s with
      | String c t => if p c then k t (S pos) caps else None
      | EmptyString => None
      end
  | Cat r1 r2 =>
      rmatch r1 s pos caps (fun s1 p1 c1 => rmatch r2 s1 p1 c1 k)
  | Alt r1 r2 =>
      match rmatch r1 s pos caps k with
      | Some x => Some x
      | None => rmatch r2 s pos caps k
      end
  | Star p => star_loop p caps k s pos
  | Grp i r1 =>
      rmatch r1 s pos caps (fun s1 p1 c1 => k s1 p1 ((i, (pos, p1)) :: c1))
  end.
End Matcher.

(** A match object: the searched string and the spans. *)
Record Match : Type := mkMatch {
  m_string : string;
  m_start : nat;
  m_end : nat;
  m_caps : captures
}.

(** [m.group(i)] for a group that took part in the match. *)
Definition group (i : nat) (m : Match) : string :=
  match span_of i (m_caps m) with
  | Some (a, b) => Str.slice a b (m_string m)
  | None => EmptyString
  end.

(** The pattern tried at offset [pos], where [s] is the rest of [whole]. *)
Definition match_at (r : regex) (whole s : string) (pos : nat) : option Match :=
  rmatch r s pos [] (fun _ e caps => Some (mkMatch whole pos e caps)).

Fixpoint search_from (r : regex) (whole s : string) (pos : nat) : option Match :=
  match match_at r whole s pos with
  | Some m => Some m
  | None =>
      match s with
      | String _ t => search_from r whole t (S pos)
      | EmptyString => None
      end
  end.

(** [pattern.search(s)]: the match at the leftmost offset that has one. *)
Definition search (r : regex) (s : string) : option Match := search_from r s s 0.

(** [pattern.match(s)]: the match at offset 0, if any. *)
Definition match_ (r : regex) (s : string) : option Match := match_at r s s 0.

(** The language of a pattern, independently of the matcher. *)
Inductive lang : regex -> string -> Prop :=
| L_Eps : lang Eps EmptyString
| L_Chr p c : p c = true -> lang (Chr p) (String c EmptyString)
| L_Cat r1 r2 s1 s2 : lang r1 s1 -> lang r2 s2 -> lang (Cat r1 r2) (s1 +:+ s2)
| L_AltL r1 r2 s : lang r1 s -> lang (Alt r1 r2) s
| L_AltR r1 r2 s : lang r2 s -> lang (Alt r1 r2) s
| L_Star p s : Str.all p s = true -> lang (Star p) s
| L_Grp i r s : lang r s -> lang (Grp i r) s.

End Re.

(** The pattern of [extract_marker_positions]:
    [var\s+marker\s*=\s*L\.marker\(\s*\[\s*([-\d.]+)\s*,\s*([-\d.]+)\s*\]] *)

Definition coord_char (c : ascii) : bool :=
  Chars.one "-" c || Chars.is_digit c || Chars.one "." c.

Definition marker_pattern : Re.regex :=
  Re.seq
    [ Re.lit "var"; Re.plus Chars.is_space; Re.lit "marker";
      Re.Star Chars.is_space; Re.lit "="; Re.Star Chars.is_space;
      Re.lit "L.marker("; Re.Star Chars.is_space; Re.lit "[";
      Re.Star Chars.is_space; Re.Grp 1 (Re.plus coord_char);
      Re.Star Chars.is_space; Re.lit ","; Re.Star Chars.is_space;
      Re.Grp 2 (Re.plus coord_char); Re.Star Chars.is_space; Re.lit "]" ].

(** ** Python values: exceptions, floats, dates *)

(** The exception classes the program can meet.  [HTTPError] is a subclass
    of [requests.RequestException]; [MarkupError] is what the console of
    [rich] raises for a line whose markup it cannot parse; every class here
    is a subclass of [Exception]. *)
Inductive exn : Type :=
| RequestException (detail : string)
| HTTPError (status : Z)
| KeyError (key : string)
| ValueError (detail : string)
| OSError (detail : string)
| MarkupError (detail : string).

Definition is_RequestException (e : exn) : bool :=
  match e with
  | RequestException _ | HTTPError _ => true
  | _ => false
  end.

Definition is_Exception (e : exn) : bool := true.

(** A computation that returns or raises. *)
Definition result (A : Type) : Type := exn + A.

Module PyFloat.

Definition prec : Z := 53.
Definition emax : Z := 1024.

Definition digit_val (c : ascii) : Z := Z.of_nat (Chars.code c - 48).

(** Reads the longest run of digits at the head of [s]: the value of
    [acc] followed by the run, the length of the run, the rest. *)
Fixpoint read_digits (s : string) (acc : Z) (n : nat) : Z * nat * string :=
  match s with
  | String c t =>
      if Chars.is_digit c then read_digits t (10 * acc + digit_val c) (S n)
      else (acc, n, s)
  | EmptyString => (acc, n, s)
  end.

(** [-? ( digits ( . digits? )? | . digits )]: sign, the integer written
    by all the digits, the number of digits after the point. *)
Definition parse_decimal (s : string) : option (bool * Z * nat) :=
  let '(sg, s1) :=
    match s with
    | String c t => if Chars.one "-" c then (true, t) else (false, s)
    | EmptyString => (false, s)
    end in
  let '(i, ni, s2) := read_digits s1 0 0 in
  match s2 with
  | EmptyString => if (ni =? 0)%nat then None else Some (sg, i, 0%nat)
  | String c s3 =>
      if Chars.one "." c then
        let '(m, nf, s4) := read_digits s3 i 0 in
        match s4 with
        | EmptyString => if (ni + nf =? 0)%nat then None else Some (sg, m, nf)
        | String _ _ => None
        end
      else None
  end.

(** The binary64 value nearest to [m / d] (ties to even), [m >= 0 < d]:
    a quotient of at least 62 bits and the position of the remainder,
    rounded as [SFdiv] rounds. *)
Definition round_ratio (sg : bool) (m d : Z) : spec_float :=
  if (m =? 0)%Z then S754_zero sg
  else
    let sh := Z.max 0 (63 + Z.log2 d - Z.log2 m) in
    let n := (m * 2 ^ sh)%Z in
    let q := (n / d)%Z in
    let r := (n mod d)%Z in
    let loc := if (r =? 0)%Z then loc_Exact else loc_Inexact (2 * r ?= d)%Z in
    binary_round_aux prec emax sg q (- sh) loc.

(** [float(s)] for a text over ['-'], ['.'] and the digits, which is all
    that a group of the marker pattern can hold. *)
Definition float (s : string) : result spec_float :=
  match parse_decimal s with
  | Some (sg, m, k) => inr (round_ratio sg m (10 ^ Z.of_nat k))
  | None => inl (ValueError s)
  end.

(** A float literal of the source text. *)
Definition literal (s : string) : spec_float :=
  match float s with
  | inr x => x
  | inl _ => S754_nan
  end.

(** [x == y] *)
Definition eqb (x y : spec_float) : bool := SFeqb x y.

End PyFloat.

Module DateTime.

(** A naive [datetime]; [strptime] with a date-only format leaves the
    time of day at midnight, which is therefore not recorded. *)
Record datetime : Type := mk { year : Z; month : Z; day : Z }.

Definition eqb (a b : datetime) : bool :=
  (year a =? year b)%Z && (month a =? month b)%Z && (day a =? day b)%Z.

Definition is_leap (y : Z) : bool :=
  (y mod 4 =? 0)%Z && (negb (y mod 100 =? 0)%Z || (y mod 400 =? 0)%Z).

Definition days_in_month (y m : Z) : Z :=
  if (m =? 2)%Z then (if is_leap y then 29 else 28)
  else if (m =? 4)%Z || (m =? 6)%Z || (m =? 9)%Z || (m =? 11)%Z then 30
  else 31.

(** The range check of the [datetime] constructor. *)
Definition valid (y m d : Z) : bool :=
  (1 <=? y)%Z && (y <=? 9999)%Z && (1 <=? m)%Z && (m <=? 12)%Z
  && (1 <=? d)%Z && (d <=? days_in_month y m)%Z.

Definition digit_in (lo hi : ascii) (c : ascii) : bool :=
  Chars.between (Chars.code lo) (Chars.code hi) c.

(** The regular expression [_strptime] compiles ["%Y-%m-%d"] to:
    [(\d\d\d\d)-(1[0-2]|0[1-9]|[1-9])-(3[0-1]|[1-2]\d|0[1-9]|[1-9]| [1-9])] *)
Definition year_re : Re.regex :=
  Re.Grp 1 (Re.seq [Re.Chr Chars.is_digit; Re.Chr Chars.is_digit;
                    Re.Chr Chars.is_digit; Re.Chr Chars.is_digit]).

Definition month_re : Re.regex :=
  Re.Grp 2 (Re.alts
              (Re.Cat (Re.lit "1") (Re.Chr (digit_in "0" "2")))
              [ Re.Cat (Re.lit "0") (Re.Chr (digit_in "1" "9"));
                Re.Chr (digit_in "1" "9") ]).

Definition day_re : Re.regex :=
  Re.Grp 3 (Re.alts
              (Re.Cat (Re.lit "3") (Re.Chr (digit_in "0" "1")))
              [ Re.Cat (Re.Chr (digit_in "1" "2")) (Re.Chr Chars.is_digit);
                Re.Cat (Re.lit "0") (Re.Chr (digit_in "1" "9"));
                Re.Chr (digit_in "1" "9");
                Re.Cat (Re.lit " ") (Re.Chr (digit_in "1" "9")) ]).

Definition format_regex : Re.regex :=
  Re.seq [year_re; Re.lit "-"; month_re; Re.lit "-"; day_re].

(** [int(s)] for the text of a group: blanks around the digits are
    ignored. *)
Fixpoint int_of (s : string) (acc : Z) : Z :=
  match s with
  | EmptyString => acc
  | String c t =>
      if Chars.is_digit c then int_of t (10 * acc + PyFloat.digit_val c) else int_of t acc
  end.

(** [datetime.strptime(s, "%Y-%m-%d")] *)
Definition strptime (s : string) : result datetime :=
  match Re.match_ format_regex s with
  | None => inl (ValueError s)
  | Some m =>
      if negb (Re.m_end m =? String.length s)%nat then inl (ValueError s)
      else
        let y := int_of (Re.group 1 m) 0 in
        let mo := int_of (Re.group 2 m) 0 in
        let d := int_of (Re.group 3 m) 0 in
        if valid y mo d then inr (mk y mo d) else inl (ValueError s)
  end.

Definition month_name (m : Z) : string :=
  match m with
  | 1 => "January" | 2 => "February" | 3 => "March" | 4 => "April"
  | 5 => "May" | 6 => "June" | 7 => "July" | 8 => "August"
  | 9 => "September" | 10 => "October" | 11 => "November" | _ => "December"
  end%Z.

(** [dt.strftime("%B %d, %Y")] in the C locale; the C library prints a
    year below 1000 without padding. *)
Definition strftime (dt : datetime) : string :=
  month_name (month dt) +:+ " " +:+ Str.of_nat2 (Z.to_nat (day dt)) +:+ ", "
  +:+ Str.of_nat (Z.to_nat (year dt)).

End DateTime.

(** ** The data model *)

Definition float0 : spec_float := S754_zero false.

Record Event : Type := mkEvent {
  link : string;
  datetime : DateTime.datetime;
  lat : spec_float;
  lon : spec_float
}.

(** [Event.title] *)
Definition title (e : Event) : string :=
  Str.title
    (Str.replace_char "-" " "
       (Str.removesuffix ".html"
          (Str.removeprefix "https://fftri.t2area.com/calendrier/" (link e)))).

(** The [__eq__] that [@dataclass] generates: the tuples of all fields are
    compared. *)
Definition Event_eqb (a b : Event) : bool :=
  String.eqb (link a) (link b) && DateTime.eqb (datetime a) (datetime b)
  && PyFloat.eqb (lat a) (lat b) && PyFloat.eqb (lon a) (lon b).

(** What [requests.get] returns. *)
Record Response : Type := mkResponse { status_code : Z; text : string }.

(** [Response.raise_for_status]: an [HTTPError] for a 4xx or 5xx status. *)
Definition is_error_status (c : Z) : bool := (400 <=? c)%Z && (c <? 600)%Z.

Definition raise_for_status (r : Response) : result unit :=
  if is_error_status (status_code r) then inl (HTTPError (status_code r)) else inr tt.

(** A [bs4] element, as far as the program looks at it: [tag[key]]. *)
Record Tag : Type := mkTag { attrs : gmap string string }.

Definition getitem (t : Tag) (key : string) : result string :=
  match attrs t !! key with
  | Some v => inr v
  | None => inl (KeyError key)
  end.

(** One [li] of [ul#adv-filter-gallery > li] with the two elements the loop
    selects from it: [li.select_one("h4.stories__headline a")] and
    [li.select_one("time[datetime]")]. *)
Record Li : Type := mkLi { a_tag : option Tag; time_tag : option Tag }.

(** The map that [folium] assembles.  The script of the button is kept as
    the statements its JavaScript text consists of. *)
Inductive js_stmt : Type :=
| MapSetView (center : spec_float * spec_float) (zoom : Z)
| BtnState (name : string).

Record JsButton : Type := mkJsButton {
  button_title : string;
  button_function : list js_stmt
}.

Record Popup : Type := mkPopup {
  iframe_html : string;
  iframe_width : Z;
  iframe_height : Z;
  max_width : Z
}.

(** The children of a map: the tile layer that [folium.Map] adds to itself
    when it is made, the button, the markers. *)
Inductive Child : Type :=
| ChildTileLayer (tiles : string)
| ChildButton (b : JsButton)
| ChildMarker (position : spec_float * spec_float) (popup : Popup).

Record FoliumMap : Type := mkMap {
  location : spec_float * spec_float;
  zoom_start : Z;
  children : list Child
}.

Definition add_child (c : Child) (m : FoliumMap) : FoliumMap :=
  mkMap (location m) (zoom_start m) (children m ++ [c]).

(** What the browser shows: centre and zoom. *)
Definition View : Type := (spec_float * spec_float) * Z.

Definition initial_view (m : FoliumMap) : View := (location m, zoom_start m).

Definition run_stmt (v : View) (s : js_stmt) : View :=
  match s with
  | MapSetView c z => (c, z)
  | BtnState _ => v
  end.

(** A click on the button runs its function on the map it was added to. *)
Definition activate (b : JsButton) (v : View) : View :=
  fold_left run_stmt (button_function b) v.

(** Lines on the console. *)
Inductive LogMsg : Type :=
| LogPanel
| LogIssueParsing (e : exn)
| LogEventsFound (n : nat)
| LogLoading (url : string)
| LogFailedToLoad (url : string) (e : exn)
| LogFoundMarker (lat lon : spec_float)
| LogNoMarker (link : string)
| LogErrorFetching (link : string) (e : exn)
| LogNoMarkersToPlot
| LogMapSaved (path : string).

Definition is_warning (m : LogMsg) : bool :=
  match m with
  | LogIssueParsing _ | LogNoMarker _ => true
  | _ => false
  end.

(** The console reads its lines as markup: [[bold]] opens a tag, [[/bold]]
    closes one, and a closing tag that matches no open tag raises
    [MarkupError].  The tags the program writes itself are paired; what
    can go wrong is a tag in a text the program puts into the line, and a
    tag starts with a bracket.  A text without a bracket is plain. *)
Definition plain_text (s : string) : bool :=
  Str.all (fun c => negb (Chars.one "[" c)) s.

(** The text of an exception is plain.  The text of a requests exception,
    of a [KeyError], of the [ValueError] of [strptime] or [float] is kept
    in the exception; that of an [HTTPError] also names the reason phrase
    and the address of the response, which are not kept, so nothing is
    said of it. *)
Definition plain_exn (e : exn) : bool :=
  match e with
  | HTTPError _ => false
  | RequestException d | KeyError d | ValueError d | OSError d | MarkupError d =>
      plain_text d
  end.

(** A line all of whose interpolated texts are plain.  The panel, the
    number of events, the line for no marker to plot hold no text of the
    kind; the coordinates are printed as numbers. *)
Definition plain_line (m : LogMsg) : bool :=
  match m with
  | LogPanel | LogEventsFound _ | LogFoundMarker _ _ | LogNoMarkersToPlot => true
  | LogIssueParsing e => plain_exn e
  | LogLoading url => plain_text url
  | LogFailedToLoad url e => plain_text url && plain_exn e
  | LogNoMarker link => plain_text link
  | LogErrorFetching link e => plain_text link && plain_exn e
  | LogMapSaved path => plain_text path
  end.

(** ** The collaborators

    The network, the HTML parser, [urljoin], string hashing, the order in
    which a [set] is iterated, the failure of a file write and the markup
    parser of the console are taken as given.  [set_iter] receives the
    elements in insertion order.  [console_error line] is the text of the
    [MarkupError] that [console.log] raises for the line, if it raises;
    a plain line is always printed. *)

Class Env : Type := {
  World : Type;
  requests_get : string -> World -> result Response * World;
  select_entries : string -> list Li;
  urljoin : string -> string -> result string;
  str_hash : string -> Z;
  set_iter : list Event -> list Event;
  set_iter_perm : forall l, Permutation (set_iter l) l;
  write_error : string -> gmap string FoliumMap -> option exn;
  console_error : LogMsg -> option string;
  console_prints_plain : forall line, plain_line line = true -> console_error line = None
}.

Section Program.
Context `{E : Env}.

(** [Event.__hash__] *)
Definition Event_hash (e : Event) : Z := str_hash (link e).

(** A [set[Event]]: its elements in insertion order; a lookup compares
    hashes first and then calls [__eq__]. *)
Definition set_contains (x : Event) (s : list Event) : bool :=
  existsb (fun y => (Event_hash y =? Event_hash x)%Z && Event_eqb y x) s.

Definition set_add (x : Event) (s : list Event) : list Event :=
  if set_contains x s then s else s ++ [x].

Record State : Type := mkState {
  world : World;
  console : list LogMsg;
  files : gmap string FoliumMap
}.

Definition M (A : Type) : Type := State -> result A * State.

Definition ret {A} (a : A) : M A := fun st => (inr a, st).

Definition raise {A} (e : exn) : M A := fun st => (inl e, st).

Definition bind {A B} (m : M A) (f : A -> M B) : M B :=
  fun st =>
    match m st with
    | (inr a, st') => f a st'
    | (inl e, st') => (inl e, st')
    end.

#[global] Instance M_ret : MRet M := @ret.
#[global] Instance M_bind : MBind M := fun A B f m => bind m f.

Definition lift {A} (r : result A) : M A :=
  match r with
  | inr a => ret a
  | inl e => raise e
  end.

(** [try: m except C as e: h e] *)
Definition try_except {A} (m : M A) (C : exn -> bool) (h : exn -> M A) : M A :=
  fun st =>
    match m st with
    | (inl e, st') => if C e then h e st' else (inl e, st')
    | (inr a, st') => (inr a, st')
    end.

(** [console.log(line)]: the line is printed, unless its markup does not
    parse; then nothing is printed and [MarkupError] is raised. *)
Definition log (msg : LogMsg) : M unit :=
  fun st =>
    match console_error msg with
    | Some d => (inl (MarkupError d), st)
    | None => (inr tt, mkState (world st) (console st ++ [msg]) (files st))
    end.

Definition get (url : string) : M Response :=
  fun st =>
    let '(r, w) := requests_get url (world st) in
    (r, mkState w (console st) (files st)).

(** [m.save(path)] *)
Definition save (m : FoliumMap) (path : string) : M unit :=
  fun st =>
    match write_error path (files st) with
    | Some e => (inl e, st)
    | None => (inr tt, mkState (world st) (console st) (<[path := m]> (files st)))
    end.

Fixpoint for_each {A B} (xs : list A) (acc : B) (body : B -> A -> M B) : M B :=
  match xs with
  | [] => mret acc
  | x :: xs' => acc' ← body acc x; for_each xs' acc' body
  end.

(** The body of the [try] in the loop over the listing entries. *)
Definition entry_event (base_url : string) (li : Li) : result (option Event) :=
  match a_tag li, time_tag li with
  | Some a, Some t =>
      match getitem a "href" with
      | inl e => inl e
      | inr href =>
          match urljoin base_url href with
          | inl e => inl e
          | inr url =>
              match getitem t "datetime" with
              | inl e => inl e
              | inr date =>
                  match DateTime.strptime date with
                  | inl e => inl e
                  | inr dt => inr (Some (mkEvent url dt float0 float0))
                  end
              end
          end
      end
  | _, _ => inr None
  end.

Definition scan_entry (base_url : string) (events : list Event) (li : Li)
  : M (list Event) :=
  try_except
    (o ← lift (entry_event base_url li);
     mret (match o with Some ev => set_add ev events | None => events end))
    is_Exception
    (fun e => log (LogIssueParsing e);; mret events).

Definition scan_entries (base_url : string) (entries : list Li)
           (events : list Event) : M (list Event) :=
  for_each entries events (scan_entry base_url).

Definition extract_event_links_and_dates (html base_url : string) : M (list Event) :=
  events ← scan_entries base_url (select_entries html) [];
  log (LogEventsFound (length events));;
  mret events.

(** [requests.get(url)] followed by [raise_for_status()]. *)
Definition fetch (url : string) : M Response :=
  r ← get url;
  lift (raise_for_status r);;
  mret r.

(** The body of the loop over the event stubs. *)
Definition resolve (marker_positions : list Event) (evt : Event) : M (list Event) :=
  try_except
    (page ← fetch (link evt);
     match Re.search marker_pattern (text page) with
     | Some m =>
         lat ← lift (PyFloat.float (Re.group 1 m));
         lon ← lift (PyFloat.float (Re.group 2 m));
         log (LogFoundMarker lat lon);;
         mret (marker_positions ++ [mkEvent (link evt) (datetime evt) lat lon])
     | None =>
         log (LogNoMarker (link evt));;
         mret marker_positions
     end)
    is_RequestException
    (fun e => log (LogErrorFetching (link evt) e);; mret marker_positions).

Definition extract_marker_positions (start_url : string) : M (list Event) :=
  r ← try_except
        (log (LogLoading start_url);;
         response ← fetch start_url;
         mret (Some response))
        is_RequestException
        (fun e => log (LogFailedToLoad start_url e);; mret None);
  match r with
  | None => mret []
  | Some response =>
      events_info ← extract_event_links_and_dates (text response) start_url;
      for_each (set_iter events_info) [] resolve
  end.

Definition q : string := String Chars.dquote EmptyString.

(** The button of [generate_map]; its function reads
    [function(btn, map) { map.setView([48.856614, 2.3522219], 6);
    btn.state('zoom-to-forest'); }]. *)
Definition reset_button : JsButton :=
  mkJsButton ("<i class=" +:+ q +:+ "fas fa-crosshairs" +:+ q +:+ "></i>")
             [ MapSetView (PyFloat.literal "48.856614", PyFloat.literal "2.3522219") 6;
               BtnState "zoom-to-forest" ].

(** The popup text of one event. *)
Definition popup_html (event : Event) : string :=
  "<a href=" +:+ q +:+ link event +:+ q +:+ " target=" +:+ q +:+ "_blank" +:+ q
  +:+ "><b>" +:+ title event +:+ "</b></a><br>Date: "
  +:+ DateTime.strftime (datetime event).

Definition marker_of (event : Event) : Child :=
  ChildMarker (lat event, lon event) (mkPopup (popup_html event) 200 100 200).

(** The map [generate_map] has built when it calls [save], from
    [folium.Map(location=[48.856614, 2.3522219], zoom_start=6)] on; the
    new map holds the tile layer of its default tiles. *)
Definition build_map (marker_positions : list Event) : FoliumMap :=
  let m := mkMap (PyFloat.literal "48.856614", PyFloat.literal "2.3522219") 6
                 [ChildTileLayer "OpenStreetMap"] in
  let m := add_child (ChildButton reset_button) m in
  fold_left (fun m event => add_child (marker_of event) m) marker_positions m.

Definition generate_map (marker_positions : list Event) (output_file : string) : M unit :=
  match marker_positions with
  | [] => log LogNoMarkersToPlot
  | _ :: _ =>
      save (build_map marker_positions) output_file;;
      log (LogMapSaved output_file)
  end.

(** [range(start, stop, step)] for a positive step. *)
Definition range (start stop step : nat) : list nat :=
  map (fun k => start + k * step)%nat (seq 0 ((stop - start + step - 1) / step)).

(** The loop of the main block: [positions += extract_marker_positions(u)]. *)
Definition crawl_pages (urls : list string) : M (list Event) :=
  for_each urls [] (fun positions u =>
                      found ← extract_marker_positions u;
                      mret (positions ++ found)).

Definition main : M unit :=
  log LogPanel;;
  positions ← crawl_pages
                (map (fun i => "https://fftri.t2area.com/calendrier.html"
                                 +:+ "?limitstart=" +:+ Str.of_nat i)
                     (range 0 200 10));
  generate_map positions "build/index.html".

End Program.

(** ** A concrete world for the examples

    A site is a table from URLs to responses (any other URL refuses the
    connection); the HTML parser is a table from page texts to their
    entries; links are absolute, which [urljoin] returns unchanged; a set
    is iterated in insertion order; the console rejects a line in which
    an interpolated text holds the start of a closing tag. *)

Module Demo.

Fixpoint lookup {A} (key : string) (table : list (string * A)) : option A :=
  match table with
  | [] => None
  | (k, v) :: rest => if String.eqb key k then Some v else lookup key rest
  end.

Definition get_from (site : list (string * Response)) (url : string) (w : unit)
  : result Response * unit :=
  match lookup url site with
  | Some r => (inr r, tt)
  | None => (inl (RequestException "connection refused"), tt)
  end.

Definition entries_from (pages : list (string * list Li)) (html : string) : list Li :=
  match lookup html pages with
  | Some l => l
  | None => []
  end.

(** The texts a line interpolates.  The reason phrases and addresses of
    the example sites hold no markup, so an [HTTPError] adds none. *)
Definition exn_text (e : exn) : string :=
  match e with
  | HTTPError _ => EmptyString
  | RequestException d | KeyError d | ValueError d | OSError d | MarkupError d => d
  end.

Definition texts (m : LogMsg) : list string :=
  match m with
  | LogPanel | LogEventsFound _ | LogFoundMarker _ _ | LogNoMarkersToPlot => []
  | LogIssueParsing e => [exn_text e]
  | LogLoading url => [url]
  | LogFailedToLoad url e => [url; exn_text e]
  | LogNoMarker link => [link]
  | LogErrorFetching link e => [link; exn_text e]
  | LogMapSaved path => [path]
  end.

(** The console of the examples raises for a line that is not plain and
    holds the start of a closing tag in one of its texts. *)
Definition markup_error (m : LogMsg) : option string :=
  if plain_line m then None
  else if existsb (Str.contains "[/") (texts m)
       then Some "closing tag does not match any open tag"
       else None.

Definition markup_error_plain (m : LogMsg) (H : plain_line m = true)
  : markup_error m = None :=
  @eq_ind_r bool true
            (fun b : bool =>
               (if b then None
                else if existsb (Str.contains "[/") (texts m)
                     then Some "closing tag does not match any open tag"
                     else None) = None)
            eq_refl (plain_line m) H.

Definition env (site : list (string * Response)) (pages : list (string * list Li)) : Env :=
  {| World := unit;
     requests_get := get_from site;
     select_entries := entries_from pages;
     urljoin := fun _ href => inr href;
     str_hash := fun s => Z.of_nat (String.length s);
     set_iter := fun l => l;
     set_iter_perm := fun l => Permutation_refl l;
     write_error := fun _ _ => None;
     console_error := markup_error;
     console_prints_plain := markup_error_plain |}.

Definition start (E : Env) (w : @World E) : @State E := mkState w [] ∅.

Definition entry (href date : string) : Li :=
  mkLi (Some (mkTag {[ "href" := href ]})) (Some (mkTag {[ "datetime" := date ]})).

Definition ok (body : string) : Response := mkResponse 200 body.

Definition listing0 : string := "https://fftri.t2area.com/calendrier.html?limitstart=0".
Definition listing10 : string := "https://fftri.t2area.com/calendrier.html?limitstart=10".

Definition paris_run : string := "https://fftri.t2area.com/calendrier/paris-run.html".
Definition lyon_swim : string := "https://fftri.t2area.com/calendrier/lyon-swim.html".
Definition nice_bike : string := "https://fftri.t2area.com/calendrier/nice-bike.html".

Definition page_of (items : list (string * string)) : string :=
  "<ul id='adv-filter-gallery'>"
  +:+ fold_right
        (fun '(href, date) rest =>
           "<li><h4 class='stories__headline'><a href='" +:+ href
           +:+ "'>event</a></h4><time datetime='" +:+ date +:+ "'></time></li>" +:+ rest)
        "</ul>" items.

Definition entries_of (items : list (string * string)) : list Li :=
  map (fun '(href, date) => entry href date) items.

Definition detail (lat lon : string) : string :=
  "<script>var marker = L.marker([" +:+ lat +:+ "," +:+ lon +:+ "]).addTo(map);</script>".

End Demo.

(** ** Notions the statements use *)

Section Notions.
Context `{E : Env}.

(** The state after some more lines on the console. *)
Definition logged (st : State) (msgs : list LogMsg) : State :=
  mkState (world st) (console st ++ msgs) (files st).

(** The loop over the listing entries as a function of its input alone:
    the set it ends with, or the exception that ends it, and the lines it
    logs. *)
Fixpoint scan_pure (base_url : string) (entries : list Li) (events : list Event)
  : result (list Event) * list LogMsg :=
  match entries with
  | [] => (inr events, [])
  | li :: rest =>
      match entry_event base_url li with
      | inr (Some ev) => scan_pure base_url rest (set_add ev events)
      | inr None => scan_pure base_url rest events
      | inl e =>
          match console_error (LogIssueParsing e) with
          | Some d => (inl (MarkupError d), [])
          | None =>
              let '(r, lg) := scan_pure base_url rest events in
              (r, LogIssueParsing e :: lg)
          end
      end
  end.

(** What it means for the fetch of [url] to fail in state [st] with
    exception [e], leaving the network in [w]: [requests.get] raises a
    [RequestException], or the status is 4xx or 5xx. *)
Definition fetch_fails (url : string) (st : State) (e : exn) (w : World) : Prop :=
  (requests_get url (world st) = (inl e, w) /\ is_RequestException e = true)
  \/ (exists r, requests_get url (world st) = (inr r, w)
                /\ is_error_status (status_code r) = true
                /\ e = HTTPError (status_code r)).

End Notions.

(** The format as the specification words it, [YYYY-MM-DD]: four digits,
    a hyphen, two digits, a hyphen, two digits, naming a calendar date. *)
Definition spec_iso_date (s : string) : option DateTime.datetime :=
  match s with
  | String y1 (String y2 (String y3 (String y4 (String h1
      (String m1 (String m2 (String h2 (String d1 (String d2 EmptyString))))))))) =>
      if forallb Chars.is_digit [y1; y2; y3; y4; m1; m2; d1; d2]
         && Chars.one "-" h1 && Chars.one "-" h2
      then
        let v := PyFloat.digit_val in
        let y := (1000 * v y1 + 100 * v y2 + 10 * v y3 + v y4)%Z in
        let m := (10 * v m1 + v m2)%Z in
        let d := (10 * v d1 + v d2)%Z in
        if DateTime.valid y m d then Some (DateTime.mk y m d) else None
      else None
  | _ => None
  end.

(** The characters ['0'..'9']. *)
Definition digit_chars : list ascii := map ascii_of_nat (seq 48 10).

(** The format after the year, run on a text [-MM-DD]: where the match
    ends and the spans of the groups. *)
Definition after_year (t : string) : option (nat * Re.captures) :=
  Re.rmatch (Re.seq [Re.lit "-"; DateTime.month_re; Re.lit "-"; DateTime.day_re])
            t 4 [(1, (0, 4))%nat] (fun _ e caps => Some (e, caps)).

Definition after_year_ok (m1 m2 d1 d2 : ascii) : bool :=
  let v := PyFloat.digit_val in
  let m := (10 * v m1 + v m2)%Z in
  let d := (10 * v d1 + v d2)%Z in
  implb ((1 <=? m)%Z && (m <=? 12)%Z && (1 <=? d)%Z && (d <=? 31)%Z)
        (bool_decide
           (after_year (String "-" (String m1 (String m2 (String "-"
                          (String d1 (String d2 EmptyString))))))
            = Some (10, [(3, (8, 10)); (2, (5, 7)); (1, (0, 4))])%nat)).

(** The event of the popup example. *)
Definition autumn : Event :=
  mkEvent "https://example.com/calendrier/autumn-forest-walk.html"
          (DateTime.mk 2024 4 5) float0 float0.

(** The number of events of a collection that carry a given link. *)
Definition count_link (l : string) (events : list Event) : nat :=
  length (filter (fun e => String.eqb (link e) l) events).

(** The marker literal of the test pages. *)
Definition marker_literal : string := "var marker = L.marker([48.85,2.35]".

(** The coordinates of the test pages as binary64 numbers, written out:
    [6875026306157773 * 2^-47] and [5291729562160333 * 2^-51]. *)
Definition lat_48_85 : spec_float := S754_finite false 6875026306157773 (-47).
Definition lon_2_35 : spec_float := S754_finite false 5291729562160333 (-51).

(** [x] is a binary64 number nearest to the fraction [num / den] between
    1 and 2^53: positive, with a mantissa of 53 bits, and no further from
    the fraction than half a unit of its last place. *)
Definition nearest_double (num den : Z) (x : spec_float) : Prop :=
  match x with
  | S754_finite false m (Zneg p) =>
      (2 ^ 52 <= Zpos m < 2 ^ 53)%Z
      /\ (2 * Z.abs (num * 2 ^ Zpos p - den * Zpos m) <= den)%Z
  | _ => False
  end.

(** A text of the pattern's language starts at offset [i] of [s]. *)
Definition occurs_at (r : Re.regex) (s : string) (i : nat) : Prop :=
  exists a m b, s = a +:+ m +:+ b /\ String.length a = i /\ Re.lang r m.

(** The offsets of [s], counted from [pos], at which the pattern matches. *)
Fixpoint offsets_from (r : Re.regex) (s : string) (pos : nat) : list nat :=
  (match Re.match_at r s s pos with Some _ => [pos] | None => [] end)
  ++ match s with
     | String _ t => offsets_from r t (S pos)
     | EmptyString => []
     end.

Definition match_offsets (r : Re.regex) (s : string) : list nat := offsets_from r s 0.

(** A marker construction as the pattern describes it, spelled out: the
    fixed words, runs of blanks [w1..w8] between them (at least one blank
    after [var]), and the two coordinate texts. *)
Definition spaces (w : string) : Prop := Str.all Chars.is_space w = true.

Definition coord_text (g : string) : Prop :=
  g <> EmptyString /\ Str.all coord_char g = true.

Definition marker_shape (occ g1 g2 : string) : Prop :=
  exists w1 w2 w3 w4 w5 w6 w7 w8,
    w1 <> EmptyString
    /\ Forall spaces [w1; w2; w3; w4; w5; w6; w7; w8]
    /\ coord_text g1 /\ coord_text g2
    /\ occ = "var" +:+ w1 +:+ "marker" +:+ w2 +:+ "=" +:+ w3 +:+ "L.marker(" +:+ w4
            +:+ "[" +:+ w5 +:+ g1 +:+ w6 +:+ "," +:+ w7 +:+ g2 +:+ w8 +:+ "]".

(** The text does not start with a character of the class. *)
Definition heads_off (p : ascii -> bool) (t : string) : Prop :=
  match t with
  | String c _ => p c = false
  | EmptyString => True
  end.

(** The buttons of a map. *)
Definition buttons (m : FoliumMap) : list JsButton :=
  flat_map (fun c => match c with ChildButton b => [b] | _ => [] end)
           (children m).

Definition markers (m : FoliumMap) : list (spec_float * spec_float * Popup) :=
  flat_map (fun c => match c with ChildMarker p pop => [(p, pop)] | _ => [] end)
           (children m).

(** ** The worlds of the examples *)

Module TwoPages.
Import Demo.

Definition items : list (string * string) := [(paris_run, "2024-04-05")].

Definition world : Env :=
  env [ (listing0, ok (page_of items)); (listing10, ok (page_of items));
        (paris_run, ok (detail "48.85" "2.35")) ]
      [ (page_of items, entries_of items) ].

Definition resolved : Event :=
  mkEvent paris_run (DateTime.mk 2024 4 5)
          (PyFloat.literal "48.85") (PyFloat.literal "2.35").
End TwoPages.

Module ThreeEvents.
Import Demo.

Definition items : list (string * string) :=
  [(paris_run, "2024-04-05"); (lyon_swim, "2024-05-12"); (nice_bike, "2024-06-02")].

(** The second detail page carries a marker whose first coordinate is not
    a number. *)
Definition malformed : Env :=
  env [ (listing0, ok (page_of items));
        (paris_run, ok (detail "48.85" "2.35"));
        (lyon_swim, ok (detail "1.2.3" "4.83"));
        (nice_bike, ok (detail "43.70" "7.26")) ]
      [ (page_of items, entries_of items) ].

(** The second detail page cannot be fetched. *)
Definition unreachable : Env :=
  env [ (listing0, ok (page_of items));
        (paris_run, ok (detail "48.85" "2.35"));
        (nice_bike, ok (detail "43.70" "7.26")) ]
      [ (page_of items, entries_of items) ].
End ThreeEvents.

Module SparseEntries.
Import Demo.

Definition full : string :=
  "<li><h4 class='stories__headline'><a href='" +:+ paris_run
  +:+ "'>event</a></h4><time datetime='2024-04-05'></time></li>".
Definition no_link : string := "<li><time datetime='2024-05-12'></time></li>".
Definition no_time : string :=
  "<li><h4 class='stories__headline'><a href='" +:+ lyon_swim +:+ "'>event</a></h4></li>".

Definition html : string :=
  "<ul id='adv-filter-gallery'>" +:+ no_link +:+ no_time +:+ full +:+ "</ul>".
Definition html' : string :=
  "<ul id='adv-filter-gallery'>" +:+ no_time +:+ full +:+ "</ul>".

Definition li_no_link : Li := mkLi None (Some (mkTag {[ "datetime" := "2024-05-12" ]})).
Definition li_no_time : Li := mkLi (Some (mkTag {[ "href" := lyon_swim ]})) None.

Definition world : Env :=
  env [] [ (html, [li_no_link; li_no_time; entry paris_run "2024-04-05"]);
           (html', [li_no_time; entry paris_run "2024-04-05"]) ].
End SparseEntries.

Module ListingStatus.
Import Demo.

Definition items : list (string * string) := [(paris_run, "2024-04-05")].

(** The listing URL answers 300 Multiple Choices with a listing as body. *)
Definition multiple_choices : Env :=
  env [ (listing0, mkResponse 300 (page_of items));
        (paris_run, ok (detail "48.85" "2.35")) ]
      [ (page_of items, entries_of items) ].

(** The listing URL answers 503. *)
Definition unavailable : Env :=
  env [ (listing0, mkResponse 503 (page_of items));
        (paris_run, ok (detail "48.85" "2.35")) ]
      [ (page_of items, entries_of items) ].
End ListingStatus.

Module DetailPages.
Import Demo.

Definition no_map : string := "<html><body>no map on this page</body></html>".

Definition world : Env :=
  env [ (paris_run, ok (detail "48.85" "2.35")); (lyon_swim, ok no_map) ] [].

Definition stub (l : string) : Event := mkEvent l (DateTime.mk 2024 4 5) float0 float0.
End DetailPages.

Module TwoMarkers.
Import Demo.

Definition first : string := "var marker = L.marker([48.85,2.35]".
Definition later : string :=
  ").addTo(map); var marker = L.marker([43.70,7.26]).addTo(map);</script>".
Definition body : string := "<script>" +:+ first +:+ later.

Definition world : Env := env [ (paris_run, ok body) ] [].
End TwoMarkers.

Module Dates.
Import Demo.

Definition short : list (string * string) := [(paris_run, "2024-4-5")].

(** A page with a date [strptime] reads and one it rejects. *)
Definition mixed : list (string * string) :=
  [(paris_run, "2024-04-05"); (lyon_swim, "05/04/2024")].

Definition world : Env :=
  env [] [ (page_of short, entries_of short); (page_of mixed, entries_of mixed) ].

Definition strict : Li := entry paris_run "2024-04-05".
Definition slashed : Li := entry lyon_swim "05/04/2024".
Definition other : Li := entry nice_bike "2024-06-02".
End Dates.

(** ** The class [JsButton]

    What [JsButton.render] does after [super().render()]: the root of the
    element's tree must be a [Figure], and three assets are added to the
    figure's header under fixed names.  The children of an element are an
    ordered dictionary: [add_child(child, name=n)] binds [n] to the child,
    in place when [n] is bound already and at the end otherwise.  What
    [super().render()] does is taken as given. *)

Module Button.

Inductive Asset : Type :=
| JavascriptLink (url : string)
| CssLink (url : string)
| Other (body : string).

Definition Children : Type := list (string * Asset).

Fixpoint add_child (child : Asset) (name : string) (cs : Children) : Children :=
  match cs with
  | [] => [(name, child)]
  | (n, c) :: rest =>
      if String.eqb n name then (n, child) :: rest
      else (n, c) :: add_child child name rest
  end.

Fixpoint get_child (name : string) (cs : Children) : option Asset :=
  match cs with
  | [] => None
  | (n, c) :: rest => if String.eqb n name then Some c else get_child name rest
  end.

Record Figure : Type := mkFigure {
  header : Children;
  html : Children;
  script : Children
}.

(** What [self.get_root()] returns. *)
Inductive Root : Type :=
| IsFigure (f : Figure)
| NotFigure.

Inductive outcome : Type :=
| Rendered (f : Figure)
| SuperRaised (e : exn)
| AssertionError (msg : string).

Definition easy_button_js : Asset :=
  JavascriptLink "https://cdn.jsdelivr.net/npm/leaflet-easybutton@2/src/easy-button.js".
Definition easy_button_css : Asset :=
  CssLink "https://cdn.jsdelivr.net/npm/leaflet-easybutton@2/src/easy-button.css".
Definition font_awesome_css : Asset :=
  CssLink "https://use.fontawesome.com/releases/v5.3.1/css/all.css".

(** The three [figure.header.add_child] calls. *)
Definition add_assets (h : Children) : Children :=
  add_child font_awesome_css "Control.FontAwesome.css"
    (add_child easy_button_css "Control.EasyButton.css"
       (add_child easy_button_js "Control.EasyButton.js" h)).

(** [JsButton.render]; [super_render] is [super(JsButton, self).render()]
    as a function of the root it finds. *)
Definition render (super_render : Root -> result Root) (root : Root) : outcome :=
  match super_render root with
  | inl e => SuperRaised e
  | inr (IsFigure f) => Rendered (mkFigure (add_assets (header f)) (html f) (script f))
  | inr NotFigure =>
      AssertionError "You cannot render this Element if it is not in a Figure."
  end.

Definition asset_names : list string :=
  ["Control.EasyButton.js"; "Control.EasyButton.css"; "Control.FontAwesome.css"].

End Button.

(** ** Notions of the further properties *)

(** What identifies a stub: its link and its date. *)
Definition key (e : Event) : string * DateTime.datetime := (link e, datetime e).

(** A stub as the listing crawl makes it: the coordinates are the default
    0.0 and the date is one the [datetime] constructor accepts. *)
Definition is_stub (e : Event) : Prop :=
  lat e = float0 /\ lon e = float0
  /\ DateTime.valid (DateTime.year (datetime e)) (DateTime.month (datetime e))
                    (DateTime.day (datetime e)) = true.

Definition is_parse_warning (m : LogMsg) : Prop := exists e, m = LogIssueParsing e.

(** The URLs the main block crawls, in order. *)
Definition page_urls : list string :=
  map (fun i => "https://fftri.t2area.com/calendrier.html" +:+ "?limitstart=" +:+ Str.of_nat i)
      (range 0 200 10).

Section Frames.
Context `{E : Env}.

(** From [st] to [st'] no file changed and the console only grew. *)
Definition grows (st st' : State) : Prop :=
  files st' = files st /\ exists msgs, console st' = console st ++ msgs.

(** A computation that never touches a file and only adds to the console. *)
Definition keeps {A} (m : M A) : Prop := forall st, grows st (snd (m st)).

(** Every exception [requests.get] raises is a [RequestException]. *)
Definition get_raises_request_exceptions : Prop :=
  forall url w e w', requests_get url w = (inl e, w') -> is_RequestException e = true.

(** The console cannot print one of the lines the loop over the stubs
    logs with the link of a stub: that no marker was found, or that the
    fetch failed with some exception. *)
Definition cannot_print_for (evt : Event) (d : string) : Prop :=
  console_error (LogNoMarker (link evt)) = Some d
  \/ exists x, console_error (LogErrorFetching (link evt) x) = Some d.

(** No URL can be fetched: every request ends in a [RequestException],
    and the console can print the line that reports it. *)
Definition offline : Prop :=
  forall url w, exists e w',
    requests_get url w = (inl e, w') /\ is_RequestException e = true
    /\ (plain_text url = true -> console_error (LogFailedToLoad url e) = None).

End Frames.

(** Worlds of the further examples. *)

Module Repeats.
Import Demo.

Definition twice : list (string * string) :=
  [(paris_run, "2024-04-05"); (lyon_swim, "2024-05-12"); (paris_run, "2024-04-05")].
Definition once : list (string * string) :=
  [(paris_run, "2024-04-05"); (lyon_swim, "2024-05-12")].

Definition world : Env :=
  env [ (listing0, ok (page_of twice));
        (paris_run, ok (detail "48.85" "2.35"));
        (lyon_swim, ok (detail "45.76" "4.83")) ]
      [ (page_of twice, entries_of twice); (page_of once, entries_of once) ].

(** A link element without [href]. *)
Definition bare : Li :=
  mkLi (Some (mkTag ∅)) (Some (mkTag {[ "datetime" := "2024-05-12" ]})).
End Repeats.

(** A text written in ASCII. *)
Definition ascii_text (s : string) : Prop :=
  Str.all (fun c => (Chars.code c <? 128)%nat) s = true.

(** No character of the text is a hyphen. *)
Definition no_hyphen (s : string) : Prop :=
  Str.all (fun c => negb (Chars.one "-" c)) s = true.

(** The prefix of the links of the calendar site. *)
Definition calendar_prefix : string := "https://fftri.t2area.com/calendrier/".

(** Texts that read as a closing tag of the console's markup. *)
Module Tagged.
Import Demo.

Definition dates : list (string * string) :=
  [(paris_run, "[/x]"); (lyon_swim, "2024-05-12")].

Definition url : string := "https://fftri.t2area.com/calendrier.html?tag=[/x]".

Definition path : string := "build/[/x].html".

Definition world : Env :=
  env [ (url, ok (page_of dates)); (lyon_swim, ok (detail "45.76" "4.83")) ]
      [ (page_of dates, entries_of dates) ].
End Tagged.

Module EmptyListing.
Import Demo.

Definition world : Env := env [ (listing0, ok (page_of [])) ] [ (page_of [], []) ].
End EmptyListing.

(** ** Facts about strings *)

Module StrFacts.

Lemma app_nil_r (s : string) : s +:+ EmptyString = s.
Proof. induction s as [|c s IH]; simpl; [reflexivity | now rewrite IH]. Qed.

Lemma app_assoc (a b c : string) : (a +:+ b) +:+ c = a +:+ (b +:+ c).
Proof. induction a as [|x a IH]; simpl; [reflexivity | now rewrite IH]. Qed.

Lemma length_app (a b : string) :
  String.length (a +:+ b) = (String.length a + String.length b)%nat.
Proof. induction a as [|x a IH]; simpl; [reflexivity | now rewrite IH]. Qed.

Lemma substring_skip (a b : string) (n m : nat) :
  substring (String.length a + n) m (a +:+ b) = substring n m b.
Proof. induction a as [|x a IH]; simpl; [reflexivity | exact IH]. Qed.

Lemma substring_take (a b : string) :
  substring 0 (String.length a) (a +:+ b) = a.
Proof.
  induction a as [|x a IH]; simpl.
  - destruct b; reflexivity.
  - now rewrite IH.
Qed.

End StrFacts.

(** ** Running the monad *)

Section Running.
Context `{E : Env}.

Lemma bind_run {A B} (m : M A) (f : A -> M B) (st : State) :
  (m ≫= f) st =
  match m st with
  | (inr a, st') => f a st'
  | (inl e, st') => (inl e, st')
  end.
Proof. reflexivity. Qed.

Lemma log_run (msg : LogMsg) (st : State) :
  log msg st =
  match console_error msg with
  | Some d => (inl (MarkupError d), st)
  | None => (inr tt, logged st [msg])
  end.
Proof. reflexivity. Qed.

(** A plain line is printed. *)
Lemma log_plain (msg : LogMsg) (st : State) :
  plain_line msg = true -> log msg st = (inr tt, logged st [msg]).
Proof. intros H. rewrite log_run, (console_prints_plain _ H). reflexivity. Qed.

(** The first [try] of [extract_marker_positions], case by case. *)
Lemma extract_marker_positions_run (start_url : string) (st : State) :
  extract_marker_positions start_url st =
  match console_error (LogLoading start_url) with
  | Some d => (inl (MarkupError d), st)
  | None =>
      let st0 := logged st [LogLoading start_url] in
      match requests_get start_url (world st) with
      | (inl e, w) =>
          if is_RequestException e
          then match console_error (LogFailedToLoad start_url e) with
               | None => (inr [], logged (mkState w (console st0) (files st))
                                         [LogFailedToLoad start_url e])
               | Some d => (inl (MarkupError d), mkState w (console st0) (files st))
               end
          else (inl e, mkState w (console st0) (files st))
      | (inr response, w) =>
          if is_error_status (status_code response)
          then match console_error (LogFailedToLoad start_url (HTTPError (status_code response))) with
               | None => (inr [], logged (mkState w (console st0) (files st))
                                         [LogFailedToLoad start_url
                                            (HTTPError (status_code response))])
               | Some d => (inl (MarkupError d), mkState w (console st0) (files st))
               end
          else (events_info ← extract_event_links_and_dates (text response) start_url;
                for_each (set_iter events_info) [] resolve)
                 (mkState w (console st0) (files st))
      end
  end.
Proof.
  unfold extract_marker_positions, try_except.
  rewrite bind_run. unfold mbind at 1, M_bind at 1, bind at 1.
  rewrite log_run.
  destruct (console_error (LogLoading start_url)) as [d|]; [reflexivity|].
  cbv zeta.
  unfold fetch, get, lift, raise_for_status, mbind, M_bind, bind, mret, M_ret, ret.
  cbn [world console files logged].
  destruct (requests_get start_url (world st)) as [[e|response] w].
  - destruct (is_RequestException e); [|reflexivity].
    rewrite log_run.
    destruct (console_error (LogFailedToLoad start_url e)); reflexivity.
  - destruct (is_error_status (status_code response)); [|reflexivity].
    cbn [is_RequestException raise]. rewrite log_run.
    destruct (console_error (LogFailedToLoad start_url (HTTPError (status_code response))));
      reflexivity.
Qed.

Lemma for_each_app {A B} (xs ys : list A) (acc : B) (body : B -> A -> M B) st :
  for_each (xs ++ ys) acc body st =
  (for_each xs acc body ≫= fun acc' => for_each ys acc' body) st.
Proof.
  revert acc st. induction xs as [|x xs IH]; intros acc st; simpl.
  - reflexivity.
  - rewrite !bind_run. destruct (body acc x st) as [[e|acc'] st']; [reflexivity|].
    rewrite IH. reflexivity.
Qed.

(** The accumulator of the main loop only ever grows at its end. *)
Lemma crawl_from_acc (urls : list string) (acc : list Event) st :
  for_each urls acc (fun positions u =>
                       found ← extract_marker_positions u;
                       mret (positions ++ found)) st =
  match crawl_pages urls st with
  | (inr l, st') => (inr (acc ++ l), st')
  | (inl e, st') => (inl e, st')
  end.
Proof.
  unfold crawl_pages. revert acc st.
  induction urls as [|u urls IH]; intros acc st; simpl.
  - unfold mret, M_ret, ret. now rewrite List.app_nil_r.
  - rewrite !bind_run.
    destruct (extract_marker_positions u st) as [[e|found] st1]; [reflexivity|].
    unfold mret, M_ret, ret. simpl.
    rewrite (IH (acc ++ found)), (IH found).
    destruct (for_each urls [] _ st1) as [[e|l] st2]; [reflexivity|].
    now rewrite <- List.app_assoc.
Qed.

Lemma crawl_pages_cons (u : string) (urls : list string) st :
  crawl_pages (u :: urls) st
  = (found ← extract_marker_positions u;
     more ← crawl_pages urls;
     mret (found ++ more)) st.
Proof.
  unfold crawl_pages at 1. simpl. rewrite !bind_run.
  destruct (extract_marker_positions u st) as [[e|found] st1]; [reflexivity|].
  unfold mret at 1, M_ret at 1, ret at 1. simpl.
  rewrite crawl_from_acc. rewrite bind_run.
  destruct (crawl_pages urls st1) as [[e|l] st2]; reflexivity.
Qed.

End Running.

(** ** C7: an empty event list *)

(** C7. For every output path, [generate_map] called with the empty list
    logs one line and returns; the network and every file, the one at the
    output path included, are as they were. *)
Theorem C7_empty_map_is_noop `{E : Env} (output_file : string) (st : State) :
  generate_map [] output_file st
  = (inr tt, mkState (world st) (console st ++ [LogNoMarkersToPlot]) (files st))
  /\ files (snd (generate_map [] output_file st)) = files st
  /\ files (snd (generate_map [] output_file st)) !! output_file = files st !! output_file.
Proof.
  unfold generate_map. rewrite log_plain by reflexivity. repeat split.
Qed.

(** ** C9: the reset button *)

(** C9. The map that [generate_map] builds for a non-empty list has
    exactly one button; activated from any view, that button shows the
    centre and the zoom level the map starts with; and this map is what is
    written to the output path unless the write fails.  The line that
    reports the path is logged after the write: if the console cannot
    print it, the call raises [MarkupError] with the map written. *)
Theorem C9_reset_returns_home `{E : Env} (ev : Event) (rest : list Event) :
  let m := build_map (ev :: rest) in
  (exists b, buttons m = [b] /\ forall v : View, activate b v = initial_view m)
  /\ forall output_file st,
       generate_map (ev :: rest) output_file st
       = match write_error output_file (files st) with
         | Some e => (inl e, st)
         | None =>
             let written := <[output_file := m]> (files st) in
             match console_error (LogMapSaved output_file) with
             | None => (inr tt,
                        mkState (world st) (console st ++ [LogMapSaved output_file])
                                written)
             | Some d => (inl (MarkupError d),
                          mkState (world st) (console st) written)
             end
         end.
Proof.
  intros m. split.
  - exists reset_button. subst m. unfold build_map.
    assert (G : forall l m0,
               buttons (fold_left (fun m event => add_child (marker_of event) m) l m0)
               = buttons m0
               /\ initial_view (fold_left (fun m event => add_child (marker_of event) m) l m0)
                  = initial_view m0).
    { induction l as [|x l IH]; intros m0; simpl; [split; reflexivity|].
      destruct (IH (add_child (marker_of x) m0)) as [-> ->]. split.
      - unfold buttons. simpl. rewrite flat_map_app. simpl. now rewrite List.app_nil_r.
      - reflexivity. }
    destruct (G (ev :: rest)
                (add_child (ChildButton reset_button)
                           (mkMap (PyFloat.literal "48.856614", PyFloat.literal "2.3522219")
                                  6 [ChildTileLayer "OpenStreetMap"])))
      as [-> ->].
    split; [reflexivity | intros v; reflexivity].
  - intros output_file st. unfold generate_map.
    unfold mbind, M_bind, bind, save.
    destruct (write_error output_file (files st)); [reflexivity|].
    rewrite log_run. cbn [files world console].
    destruct (console_error (LogMapSaved output_file)); reflexivity.
Qed.

(** An output path the console cannot print: the call raises after the
    map was written. *)
Example path_that_cannot_be_printed :
  let r := generate_map (E := Tagged.world) [autumn] Tagged.path (Demo.start Tagged.world tt) in
  fst r = inl (MarkupError "closing tag does not match any open tag")
  /\ files (snd r) !! Tagged.path = Some (build_map [autumn])
  /\ console (snd r) = [].
Proof. repeat split; vm_compute; reflexivity. Qed.

(** ** C3: the popup of the example event *)

(** C3, the claim as stated fails: the title derived from the example link
    is not ["Autumn Forest Walk"], and the popup does not print that text
    as the whole of its bold title. *)
Lemma C3_counterexample :
  title autumn <> "Autumn Forest Walk"
  /\ Str.contains "<b>Autumn Forest Walk</b>" (popup_html autumn) = false.
Proof. split; [discriminate | vm_compute; reflexivity]. Qed.

(** C3, amended. For the example link and date, whatever the coordinates:
    only the prefix [https://fftri.t2area.com/calendrier/] is ever removed,
    so the derived title is the title-cased link without [.html]; the
    popup the Map Builder attaches to the marker is the text below, which
    contains ["Autumn Forest Walk"] (the end of the title) and
    ["April 05, 2024"]. *)
Theorem C3_popup_content (la lo : spec_float) :
  let event := mkEvent (link autumn) (datetime autumn) la lo in
  title event = "Https://Example.Com/Calendrier/Autumn Forest Walk"
  /\ popup_html event
     = "<a href=" +:+ q +:+ "https://example.com/calendrier/autumn-forest-walk.html"
       +:+ q +:+ " target=" +:+ q +:+ "_blank" +:+ q
       +:+ "><b>Https://Example.Com/Calendrier/Autumn Forest Walk</b></a><br>Date: April 05, 2024"
  /\ Str.contains "Autumn Forest Walk" (popup_html event) = true
  /\ Str.contains "April 05, 2024" (popup_html event) = true
  /\ markers (build_map [event]) = [((la, lo), mkPopup (popup_html event) 200 100 200)].
Proof. intros event. repeat split; vm_compute; reflexivity. Qed.

(** ** C1: identity of events and the merge of the crawls *)

(** C1, the claim as stated fails: two crawls, of the offsets 0 and 10,
    whose pages list the same link with the same date; the merged
    collection holds two events for that link. *)
Lemma C1_counterexample :
  fst (crawl_pages (E := TwoPages.world) [Demo.listing0; Demo.listing10] (Demo.start TwoPages.world tt))
  = inr [TwoPages.resolved; TwoPages.resolved]
  /\ count_link Demo.paris_run [TwoPages.resolved; TwoPages.resolved] = 2%nat.
Proof. split; vm_compute; reflexivity. Qed.

(** C1, amended. The hash of an event is a function of its link alone,
    whatever its date and coordinates; the caller merges the crawls by
    concatenating their lists, so the number of events the merged
    collection holds for a link is the sum of the numbers the single
    crawls found for it. *)
Theorem C1_merge_is_concatenation `{E : Env} :
  (forall l d1 d2 la1 lo1 la2 lo2,
      Event_hash (mkEvent l d1 la1 lo1) = Event_hash (mkEvent l d2 la2 lo2))
  /\ (forall u urls st,
         crawl_pages (u :: urls) st
         = (found ← extract_marker_positions u;
            more ← crawl_pages urls;
            mret (found ++ more)) st)
  /\ (forall l found more,
         count_link l (found ++ more) = (count_link l found + count_link l more)%nat).
Proof.
  split; [reflexivity | split].
  - intros u urls st. apply crawl_pages_cons.
  - intros l found more. unfold count_link.
    now rewrite filter_app, length_app.
Qed.

(** ** C2: failures while resolving one event *)

(** C2, where the code departs from the claim: the second of three events
    has a marker whose coordinate text is not a number; the [ValueError] of
    [float] leaves [extract_marker_positions], after the first event was
    resolved and before the third is looked at. *)
Theorem C2_malformed_coordinate_escapes :
  let r := extract_marker_positions (E := ThreeEvents.malformed) Demo.listing0 (Demo.start ThreeEvents.malformed tt) in
  fst r = inl (ValueError "1.2.3")
  /\ console (snd r)
     = [ LogLoading Demo.listing0; LogEventsFound 3;
         LogFoundMarker (PyFloat.literal "48.85") (PyFloat.literal "2.35") ].
Proof. split; vm_compute; reflexivity. Qed.

(** The part of C2 the code keeps: of three events whose second cannot be
    fetched, the first and the third are resolved. *)
Example transport_failure_is_contained :
  let r := extract_marker_positions (E := ThreeEvents.unreachable) Demo.listing0 (Demo.start ThreeEvents.unreachable tt) in
  fst r = inr [ mkEvent Demo.paris_run (DateTime.mk 2024 4 5)
                        (PyFloat.literal "48.85") (PyFloat.literal "2.35");
                mkEvent Demo.nice_bike (DateTime.mk 2024 6 2)
                        (PyFloat.literal "43.70") (PyFloat.literal "7.26") ]
  /\ console (snd r)
     = [ LogLoading Demo.listing0; LogEventsFound 3;
         LogFoundMarker (PyFloat.literal "48.85") (PyFloat.literal "2.35");
         LogErrorFetching Demo.lyon_swim (RequestException "connection refused");
         LogFoundMarker (PyFloat.literal "43.70") (PyFloat.literal "7.26") ].
Proof. split; vm_compute; reflexivity. Qed.

(** ** The loop over the listing entries *)

Section Scanning.
Context `{E : Env}.

Lemma logged_nil (st : State) : logged st [] = st.
Proof. destruct st; unfold logged; simpl. now rewrite List.app_nil_r. Qed.

Lemma logged_logged (st : State) (a b : list LogMsg) :
  logged (logged st a) b = logged st (a ++ b).
Proof. unfold logged; simpl. now rewrite List.app_assoc. Qed.

Lemma scan_entry_run (base_url : string) (events : list Event) (li : Li) st :
  scan_entry base_url events li st =
  match entry_event base_url li with
  | inr (Some ev) => (inr (set_add ev events), st)
  | inr None => (inr events, st)
  | inl e =>
      match console_error (LogIssueParsing e) with
      | None => (inr events, logged st [LogIssueParsing e])
      | Some d => (inl (MarkupError d), st)
      end
  end.
Proof.
  unfold scan_entry, try_except, mbind, M_bind, bind, lift.
  destruct (entry_event base_url li) as [e|[ev|]]; try reflexivity.
  simpl. rewrite log_run.
  destruct (console_error (LogIssueParsing e)); reflexivity.
Qed.

Lemma scan_entries_run (base_url : string) (entries : list Li) (events : list Event) st :
  scan_entries base_url entries events st =
  (fst (scan_pure base_url entries events),
   logged st (snd (scan_pure base_url entries events))).
Proof.
  unfold scan_entries. revert events st.
  induction entries as [|li rest IH]; intros events st; simpl.
  - now rewrite logged_nil.
  - rewrite bind_run, scan_entry_run.
    destruct (entry_event base_url li) as [e|[ev|]]; try (rewrite IH; reflexivity).
    destruct (console_error (LogIssueParsing e)) as [d|].
    + simpl. now rewrite logged_nil.
    + rewrite IH.
      destruct (scan_pure base_url rest events) as [r lg]; simpl.
      now rewrite logged_logged.
Qed.

Lemma scan_pure_app (base_url : string) (pre post : list Li) (events : list Event) :
  scan_pure base_url (pre ++ post) events =
  match fst (scan_pure base_url pre events) with
  | inr evs =>
      (fst (scan_pure base_url post evs),
       snd (scan_pure base_url pre events) ++ snd (scan_pure base_url post evs))
  | inl x => (inl x, snd (scan_pure base_url pre events))
  end.
Proof.
  revert events. induction pre as [|li pre IH]; intros events; simpl.
  - now destruct (scan_pure base_url post events).
  - destruct (entry_event base_url li) as [e|[ev|]]; rewrite ?IH; try reflexivity.
    destruct (console_error (LogIssueParsing e)) as [d|]; [reflexivity|].
    destruct (scan_pure base_url pre events) as [[x|evs] lg]; simpl; reflexivity.
Qed.

Lemma extract_run (html base_url : string) st :
  extract_event_links_and_dates html base_url st =
  let r := scan_pure base_url (select_entries html) [] in
  match fst r with
  | inr events => (inr events, logged st (snd r ++ [LogEventsFound (length events)]))
  | inl x => (inl x, logged st (snd r))
  end.
Proof.
  unfold extract_event_links_and_dates. rewrite bind_run, scan_entries_run.
  cbv zeta.
  destruct (fst (scan_pure base_url (select_entries html) [])) as [x|events];
    [reflexivity|].
  rewrite bind_run, log_plain by reflexivity.
  unfold mret, M_ret, ret. now rewrite logged_logged.
Qed.

(** An entry whose [try] raises: the page is the page without the entry
    with the warning logged in the entry's place. *)
Lemma warning_in_place (base_url : string) (li : Li) (w : exn) (pre post : list Li)
      (events : list Event) st :
  entry_event base_url li = inl w ->
  scan_entries base_url (pre ++ li :: post) events st
  = (evs ← scan_entries base_url pre events;
     log (LogIssueParsing w);;
     scan_entries base_url post evs) st
  /\ (console_error (LogIssueParsing w) = None ->
      forall evs st',
        scan_entries base_url (pre ++ post) events st = (inr evs, st') ->
        exists lg1 lg2,
          st' = logged st (lg1 ++ lg2)
          /\ scan_entries base_url (pre ++ li :: post) events st
             = (inr evs, logged st (lg1 ++ LogIssueParsing w :: lg2))).
Proof.
  intros Hw. split.
  - unfold scan_entries. rewrite for_each_app, !bind_run.
    destruct (for_each pre events (scan_entry base_url) st) as [[x|evs] st1];
      [reflexivity|].
    simpl for_each. rewrite !bind_run, scan_entry_run, Hw, log_run.
    destruct (console_error (LogIssueParsing w)); reflexivity.
  - intros Hc evs st'. rewrite !scan_entries_run, !scan_pure_app.
    destruct (fst (scan_pure base_url pre events)) as [x|e1]; [discriminate|].
    simpl. rewrite Hw, Hc.
    destruct (scan_pure base_url post e1) as [r lg]. simpl.
    intros [= -> <-]. eexists _, _. split; reflexivity.
Qed.

(** An entry without link element or without [time[datetime]] element
    leaves no trace. *)
Lemma entry_event_missing (base_url : string) (li : Li) :
  a_tag li = None \/ time_tag li = None -> entry_event base_url li = inr None.
Proof.
  unfold entry_event. intros [H|H]; rewrite H; [reflexivity|].
  destruct (a_tag li); reflexivity.
Qed.

End Scanning.

(** A warning the console cannot print ends the scan of the page: the
    first entry's date is rejected by [strptime], and the warning that
    quotes it reads as a closing tag; the second entry is never looked
    at. *)
Example warning_that_cannot_be_printed :
  let r := extract_event_links_and_dates (E := Tagged.world) (Demo.page_of Tagged.dates)
                                         Demo.listing0 (Demo.start Tagged.world tt) in
  fst r = inl (MarkupError "closing tag does not match any open tag")
  /\ console (snd r) = [].
Proof. split; vm_compute; reflexivity. Qed.

(** ** C4: entries without link or date element *)

(** C4, the claim as stated fails: a page whose first entry has no link
    element and whose second has no [time] element; both are skipped, the
    third is parsed, and the console shows the summary line only, no
    warning. *)
Lemma C4_counterexample :
  let r := extract_event_links_and_dates (E := SparseEntries.world) SparseEntries.html Demo.listing0
                                         (Demo.start SparseEntries.world tt) in
  fst r = inr [mkEvent Demo.paris_run (DateTime.mk 2024 4 5) float0 float0]
  /\ console (snd r) = [LogEventsFound 1]
  /\ filter is_warning (console (snd r)) = [].
Proof. repeat split; vm_compute; reflexivity. Qed.

(** C4, amended. A listing entry that lacks the link element or the
    [time[datetime]] element is skipped without any line on the console:
    the scan of the entry returns with the set of events and the state as
    they were, so the missing element is never fatal; and the page behaves
    exactly as the page without that entry, so the other entries are
    parsed as before. *)
Theorem C4_missing_element_skipped_silently `{E : Env}
        (html html' base_url : string) (pre post : list Li) (li : Li) (st : State) :
  select_entries html = pre ++ li :: post ->
  select_entries html' = pre ++ post ->
  a_tag li = None \/ time_tag li = None ->
  (forall events st0, scan_entry base_url events li st0 = (inr events, st0))
  /\ extract_event_links_and_dates html base_url st
     = extract_event_links_and_dates html' base_url st.
Proof.
  intros Hh Hh' Hli. split.
  - intros events st0. now rewrite scan_entry_run, (entry_event_missing _ _ Hli).
  - rewrite !extract_run, Hh, Hh'. cbv zeta. rewrite !scan_pure_app. simpl.
    now rewrite (entry_event_missing _ _ Hli).
Qed.

Lemma C4_witness :
  (forall events st0,
      scan_entry (E := SparseEntries.world) Demo.listing0 events SparseEntries.li_no_link st0
      = (inr events, st0))
  /\ extract_event_links_and_dates (E := SparseEntries.world) SparseEntries.html Demo.listing0
                                   (Demo.start SparseEntries.world tt)
     = extract_event_links_and_dates (E := SparseEntries.world) SparseEntries.html' Demo.listing0
                                     (Demo.start SparseEntries.world tt).
Proof.
  apply (C4_missing_element_skipped_silently (E := SparseEntries.world)
           SparseEntries.html SparseEntries.html' Demo.listing0
           [] [SparseEntries.li_no_time; Demo.entry Demo.paris_run "2024-04-05"]
           SparseEntries.li_no_link).
  - reflexivity.
  - reflexivity.
  - left; reflexivity.
Defined.

(** ** C8: a listing page that cannot be fetched *)

(** C8, the claim as stated fails: the status 300 is not a 2xx status, yet
    [raise_for_status] raises for 4xx and 5xx only; the body is parsed, no
    failure is logged and the crawl of the page returns an event. *)
Lemma C8_counterexample :
  let r := extract_marker_positions (E := ListingStatus.multiple_choices) Demo.listing0
                                    (Demo.start ListingStatus.multiple_choices tt) in
  fst r = inr [TwoPages.resolved]
  /\ console (snd r)
     = [ LogLoading Demo.listing0; LogEventsFound 1;
         LogFoundMarker (PyFloat.literal "48.85") (PyFloat.literal "2.35") ].
Proof. split; vm_compute; reflexivity. Qed.

(** A listing URL the console cannot print: the line that announces the
    page raises inside a [try] that catches [RequestException] only, and
    nothing is fetched. *)
Example url_that_cannot_be_printed :
  extract_marker_positions (E := Tagged.world) Tagged.url (Demo.start Tagged.world tt)
  = (inl (MarkupError "closing tag does not match any open tag"),
     Demo.start Tagged.world tt).
Proof. vm_compute. reflexivity. Qed.

(** C8, amended. Let the console print the line that announces the
    page.  When the fetch of the page fails (a network-level error, or a
    status from 400 to 599) and the console prints the line that reports
    the failure, the crawl of that page logs the failure and returns the
    empty list instead of raising, and the crawl of the remaining pages
    goes on from there.  A response with any other status is parsed, as
    one with status 200 is. *)
Theorem C8_failed_listing_is_skipped `{E : Env}
        (start_url : string) (urls : list string) (st : State) (w : World) :
  console_error (LogLoading start_url) = None ->
  (forall e,
      (requests_get start_url (world st) = (inl e, w) /\ is_RequestException e = true)
      \/ (exists r, requests_get start_url (world st) = (inr r, w)
                    /\ (400 <= status_code r < 600)%Z
                    /\ e = HTTPError (status_code r)) ->
      console_error (LogFailedToLoad start_url e) = None ->
      let st' := mkState w (console st ++ [LogLoading start_url; LogFailedToLoad start_url e])
                         (files st) in
      extract_marker_positions start_url st = (inr [], st')
      /\ crawl_pages (start_url :: urls) st = crawl_pages urls st')
  /\ (forall r,
         requests_get start_url (world st) = (inr r, w) ->
         (status_code r < 400 \/ 600 <= status_code r)%Z ->
         extract_marker_positions start_url st
         = (events_info ← extract_event_links_and_dates (text r) start_url;
            for_each (set_iter events_info) [] resolve)
             (mkState w (console st ++ [LogLoading start_url]) (files st))).
Proof.
  intros Hl. split.
  - intros e Hf Hp st'.
    assert (Hx : extract_marker_positions start_url st = (inr [], st')).
    { rewrite extract_marker_positions_run, Hl.
      destruct Hf as [[Hg He]|[r [Hg [Hs ->]]]]; rewrite Hg.
      - rewrite He, Hp. subst st'. unfold logged; simpl. now rewrite <- List.app_assoc.
      - replace (is_error_status (status_code r)) with true
          by (unfold is_error_status; symmetry; apply andb_true_iff; split;
              [apply Z.leb_le | apply Z.ltb_lt]; lia).
        rewrite Hp. subst st'. unfold logged; simpl. now rewrite <- List.app_assoc. }
    split; [exact Hx|].
    rewrite crawl_pages_cons, bind_run, Hx, bind_run.
    destruct (crawl_pages urls st') as [[x|l] st2]; reflexivity.
  - intros r Hg Hs. rewrite extract_marker_positions_run, Hl, Hg.
    replace (is_error_status (status_code r)) with false; [reflexivity|].
    unfold is_error_status. symmetry. apply andb_false_iff.
    destruct Hs as [Hs|Hs]; [left; apply Z.leb_gt | right; apply Z.ltb_ge]; lia.
Qed.

Lemma C8_witness :
  let st := Demo.start ListingStatus.unavailable tt in
  let st' := @mkState ListingStatus.unavailable tt
                      [LogLoading Demo.listing0;
                       LogFailedToLoad Demo.listing0 (HTTPError 503)] ∅ in
  extract_marker_positions (E := ListingStatus.unavailable) Demo.listing0 st = (inr [], st')
  /\ crawl_pages (E := ListingStatus.unavailable) [Demo.listing0; Demo.listing10] st
     = crawl_pages (E := ListingStatus.unavailable) [Demo.listing10] st'.
Proof.
  refine (proj1 (C8_failed_listing_is_skipped (E := ListingStatus.unavailable)
                   Demo.listing0 [Demo.listing10]
                   (Demo.start ListingStatus.unavailable tt) tt _)
                (HTTPError 503) _ _).
  - reflexivity.
  - right. exists (mkResponse 503 (Demo.page_of ListingStatus.items)).
    repeat split; simpl; lia.
  - reflexivity.
Defined.

(** ** The matcher and the language of a pattern *)

Module ReFacts.
Import Re.

Section Continuations.
Context {R : Type}.

Lemma star_loop_ext p caps (k1 k2 : @cont R) :
  (forall s pos c, k1 s pos c = k2 s pos c) ->
  forall s pos, star_loop p caps k1 s pos = star_loop p caps k2 s pos.
Proof.
  intros Hk. induction s as [|c t IH]; intros pos; simpl; [apply Hk|].
  destruct (p c); [|apply Hk]. now rewrite IH, Hk.
Qed.

Lemma rmatch_ext r :
  forall s pos caps (k1 k2 : @cont R),
    (forall s pos c, k1 s pos c = k2 s pos c) ->
    rmatch r s pos caps k1 = rmatch r s pos caps k2.
Proof.
  induction r as [|p|r1 IH1 r2 IH2|r1 IH1 r2 IH2|p|i r IH];
    intros s pos caps k1 k2 Hk; simpl.
  - apply Hk.
  - destruct s as [|c t]; [reflexivity|]. destruct (p c); [apply Hk | reflexivity].
  - apply IH1. intros; now apply IH2.
  - now rewrite (IH1 _ _ _ k1 k2 Hk), (IH2 _ _ _ k1 k2 Hk).
  - now apply star_loop_ext.
  - apply IH. intros; apply Hk.
Qed.

(** A match found is a match of the language, and the continuation
    ran on what follows it. *)
Lemma star_loop_sound p caps (k : @cont R) x :
  forall s pos,
    star_loop p caps k s pos = Some x ->
    exists s1 s2, s = s1 +:+ s2 /\ Str.all p s1 = true
                  /\ k s2 (pos + String.length s1)%nat caps = Some x.
Proof.
  induction s as [|c t IH]; intros pos H; simpl in H.
  - exists EmptyString, EmptyString. now rewrite Nat.add_0_r.
  - destruct (p c) eqn:Hc.
    + destruct (star_loop p caps k t (S pos)) as [y|] eqn:Hs.
      * injection H as ->. destruct (IH _ Hs) as (s1 & s2 & -> & Ha & Hk).
        exists (String c s1), s2. simpl. rewrite Hc, Ha.
        now rewrite Nat.add_succ_r.
      * exists EmptyString, (String c t). now rewrite Nat.add_0_r.
    + exists EmptyString, (String c t). now rewrite Nat.add_0_r.
Qed.

Lemma rmatch_sound r :
  forall s pos caps (k : @cont R) x,
    rmatch r s pos caps k = Some x ->
    exists s1 s2 caps', s = s1 +:+ s2 /\ lang r s1
                        /\ k s2 (pos + String.length s1)%nat caps' = Some x.
Proof.
  induction r as [|p|r1 IH1 r2 IH2|r1 IH1 r2 IH2|p|i r IH];
    intros s pos caps k x H; simpl in H.
  - exists EmptyString, s, caps. rewrite Nat.add_0_r. repeat split; [constructor | easy].
  - destruct s as [|c t]; [discriminate|]. destruct (p c) eqn:Hc; [|discriminate].
    exists (String c EmptyString), t, caps. simpl. rewrite Nat.add_1_r.
    repeat split; [now constructor | easy].
  - destruct (IH1 _ _ _ _ _ H) as (s1 & s' & c1 & -> & L1 & H1).
    destruct (IH2 _ _ _ _ _ H1) as (s2 & s3 & c2 & -> & L2 & H2).
    exists (s1 +:+ s2), s3, c2. rewrite StrFacts.app_assoc, StrFacts.length_app.
    repeat split; [now constructor | now rewrite Nat.add_assoc].
  - destruct (rmatch r1 s pos caps k) as [y|] eqn:H1.
    + injection H as ->. destruct (IH1 _ _ _ _ _ H1) as (s1 & s2 & c1 & -> & L1 & Hk).
      exists s1, s2, c1. repeat split; [now apply L_AltL | easy].
    + destruct (IH2 _ _ _ _ _ H) as (s1 & s2 & c1 & -> & L1 & Hk).
      exists s1, s2, c1. repeat split; [now apply L_AltR | easy].
  - destruct (star_loop_sound _ _ _ _ _ _ H) as (s1 & s2 & -> & Ha & Hk).
    exists s1, s2, caps. repeat split; [now constructor | easy].
  - destruct (IH _ _ _ _ _ H) as (s1 & s2 & c1 & -> & L1 & Hk).
    exists s1, s2, ((i, (pos, (pos + String.length s1)%nat)) :: c1).
    repeat split; [now constructor | easy].
Qed.

(** A text of the language is found, or an alternative tried before it is. *)
Lemma star_loop_total p caps (k : @cont R) s pos :
  k s pos caps <> None -> star_loop p caps k s pos <> None.
Proof.
  intros Hk. destruct s as [|c t]; simpl; [exact Hk|].
  destruct (p c); [|exact Hk].
  destruct (star_loop p caps k t (S pos)); [discriminate | exact Hk].
Qed.

Lemma star_loop_complete p caps (k : @cont R) s1 :
  Str.all p s1 = true ->
  forall s2 pos,
    k s2 (pos + String.length s1)%nat caps <> None ->
    star_loop p caps k (s1 +:+ s2) pos <> None.
Proof.
  induction s1 as [|c t IH]; intros Ha s2 pos Hk; simpl in *.
  - apply star_loop_total. now rewrite Nat.add_0_r in Hk.
  - apply andb_prop in Ha as [Hc Ht]. rewrite Hc.
    assert (G : star_loop p caps k (t +:+ s2) (S pos) <> None).
    { apply IH; [exact Ht|]. now rewrite Nat.add_succ_r in Hk. }
    destruct (star_loop p caps k (t +:+ s2) (S pos)); [discriminate | contradiction].
Qed.

Lemma rmatch_complete r s1 :
  lang r s1 ->
  forall s2 pos caps (k : @cont R),
    (forall caps', k s2 (pos + String.length s1)%nat caps' <> None) ->
    rmatch r (s1 +:+ s2) pos caps k <> None.
Proof.
  induction 1 as [|p c Hc|r1 r2 s1 s2 L1 IH1 L2 IH2|r1 r2 s L IH|r1 r2 s L IH|p s Ha|i r s L IH];
    intros s3 pos caps k Hk; simpl.
  - rewrite Nat.add_0_r in Hk. apply Hk.
  - rewrite Hc. simpl in Hk. rewrite Nat.add_1_r in Hk. apply Hk.
  - rewrite StrFacts.app_assoc. apply IH1. intros c1. apply IH2. intros c2.
    rewrite <- Nat.add_assoc, <- StrFacts.length_app. apply Hk.
  - specialize (IH s3 pos caps k Hk).
    destruct (rmatch r1 (s +:+ s3) pos caps k); [discriminate | contradiction].
  - destruct (rmatch r1 (s +:+ s3) pos caps k); [discriminate|]. now apply IH.
  - apply star_loop_complete; [exact Ha | apply Hk].
  - apply IH. intros c1. apply Hk.
Qed.
End Continuations.

(** The pattern matches at an offset exactly when a text of its language
    starts there. *)
Lemma match_at_sound r whole s pos m :
  match_at r whole s pos = Some m ->
  exists s1 s2, s = s1 +:+ s2 /\ lang r s1.
Proof.
  intros H. destruct (rmatch_sound _ _ _ _ _ _ H) as (s1 & s2 & c & -> & L & _).
  now exists s1, s2.
Qed.

Lemma match_at_complete r whole s1 s2 pos :
  lang r s1 -> match_at r whole (s1 +:+ s2) pos <> None.
Proof. intros L. apply rmatch_complete; [exact L | discriminate]. Qed.

(** The search tries the offsets from left to right. *)
Lemma search_from_hit r whole s pos m :
  match_at r whole s pos = Some m -> search_from r whole s pos = Some m.
Proof. intros H. destruct s; simpl; now rewrite H. Qed.

Lemma search_from_skip r whole rest :
  forall pre pos,
    (forall a b, pre = a +:+ b -> b <> EmptyString ->
                 match_at r whole (b +:+ rest) (pos + String.length a)%nat = None) ->
    search_from r whole (pre +:+ rest) pos
    = search_from r whole rest (pos + String.length pre)%nat.
Proof.
  induction pre as [|c t IH]; intros pos H.
  - simpl. now rewrite Nat.add_0_r.
  - pose proof (H EmptyString (String c t) eq_refl ltac:(discriminate)) as H0.
    simpl in H0. rewrite Nat.add_0_r in H0.
    simpl. rewrite H0, IH.
    + now rewrite Nat.add_succ_r.
    + intros a b -> Hb. specialize (H (String c a) b eq_refl Hb).
      simpl in H. now rewrite Nat.add_succ_r in H.
Qed.

Lemma search_from_none r whole :
  forall s pos,
    (forall a b, s = a +:+ b -> match_at r whole b (pos + String.length a)%nat = None) ->
    search_from r whole s pos = None.
Proof.
  induction s as [|c t IH]; intros pos H.
  - simpl. specialize (H EmptyString EmptyString eq_refl).
    rewrite Nat.add_0_r in H. now rewrite H.
  - simpl search_from. pose proof (H EmptyString (String c t) eq_refl) as H0.
    rewrite Nat.add_0_r in H0. rewrite H0. apply IH.
    intros a b ->. specialize (H (String c a) b eq_refl).
    simpl in H. now rewrite Nat.add_succ_r in H.
Qed.

End ReFacts.

(** ** Resolving one event *)

(** [float] raises nothing but [ValueError]. *)
Lemma float_raises (s : string) (e : exn) :
  PyFloat.float s = inl e -> e = ValueError s.
Proof.
  unfold PyFloat.float. destruct (PyFloat.parse_decimal s) as [[[? ?] ?]|]; congruence.
Qed.

Lemma not_error_status (c : Z) :
  (c < 400 \/ 600 <= c)%Z -> is_error_status c = false.
Proof.
  intros H. unfold is_error_status. apply andb_false_iff.
  destruct H as [H|H]; [left; apply Z.leb_gt | right; apply Z.ltb_ge]; lia.
Qed.

Lemma error_status (c : Z) : (400 <= c < 600)%Z -> is_error_status c = true.
Proof.
  intros H. unfold is_error_status. apply andb_true_iff.
  split; [apply Z.leb_le | apply Z.ltb_lt]; lia.
Qed.

Section Resolving.
Context `{E : Env}.

Lemma fetch_ok (url : string) (st : State) (page : Response) (w : World) :
  requests_get url (world st) = (inr page, w) ->
  is_error_status (status_code page) = false ->
  fetch url st = (inr page, mkState w (console st) (files st)).
Proof.
  intros Hg Hs. unfold fetch, get, lift, raise_for_status, mbind, M_bind, bind.
  rewrite Hg, Hs. reflexivity.
Qed.

Lemma resolve_found (acc : list Event) (evt : Event) st page w m :
  requests_get (link evt) (world st) = (inr page, w) ->
  is_error_status (status_code page) = false ->
  Re.search marker_pattern (text page) = Some m ->
  resolve acc evt st =
  match PyFloat.float (Re.group 1 m), PyFloat.float (Re.group 2 m) with
  | inr la, inr lo =>
      (inr (acc ++ [mkEvent (link evt) (datetime evt) la lo]),
       mkState w (console st ++ [LogFoundMarker la lo]) (files st))
  | inl e, _ => (inl e, mkState w (console st) (files st))
  | inr _, inl e => (inl e, mkState w (console st) (files st))
  end.
Proof.
  intros Hg Hs Hm. unfold resolve, try_except.
  rewrite bind_run, (fetch_ok _ _ _ _ Hg Hs), Hm.
  unfold lift, mbind, M_bind, bind.
  destruct (PyFloat.float (Re.group 1 m)) as [e|la] eqn:F1.
  - apply float_raises in F1 as ->. reflexivity.
  - destruct (PyFloat.float (Re.group 2 m)) as [e|lo] eqn:F2.
    + apply float_raises in F2 as ->. reflexivity.
    + unfold ret. cbv beta iota. rewrite log_plain by reflexivity. reflexivity.
Qed.

(** Without a marker nothing is added; the line that says so is logged
    inside the [try], and the [MarkupError] of a line the console cannot
    print is no [RequestException]. *)
Lemma resolve_not_found (acc : list Event) (evt : Event) st page w :
  requests_get (link evt) (world st) = (inr page, w) ->
  is_error_status (status_code page) = false ->
  Re.search marker_pattern (text page) = None ->
  resolve acc evt st
  = match console_error (LogNoMarker (link evt)) with
    | None => (inr acc, mkState w (console st ++ [LogNoMarker (link evt)]) (files st))
    | Some d => (inl (MarkupError d), mkState w (console st) (files st))
    end.
Proof.
  intros Hg Hs Hm. unfold resolve, try_except.
  rewrite bind_run, (fetch_ok _ _ _ _ Hg Hs), Hm, bind_run, log_run.
  destruct (console_error (LogNoMarker (link evt))); reflexivity.
Qed.

(** A failed fetch of the detail page is logged and costs that event
    only, if the console prints the line. *)
Lemma resolve_fetch_fails (acc : list Event) (evt : Event) st e w :
  fetch_fails (link evt) st e w ->
  resolve acc evt st
  = match console_error (LogErrorFetching (link evt) e) with
    | None => (inr acc,
               mkState w (console st ++ [LogErrorFetching (link evt) e]) (files st))
    | Some d => (inl (MarkupError d), mkState w (console st) (files st))
    end.
Proof.
  intros Hf.
  unfold resolve, try_except, fetch, get, lift, raise_for_status,
    mbind, M_bind, bind, mret, M_ret, ret.
  destruct Hf as [[Hg He]|[r [Hg [Hs ->]]]]; rewrite Hg; cbn [world console files].
  - unfold raise. rewrite He, log_run.
    destruct (console_error (LogErrorFetching (link evt) e)); reflexivity.
  - rewrite Hs. unfold raise. cbn [is_RequestException]. rewrite log_run.
    destruct (console_error (LogErrorFetching (link evt) (HTTPError (status_code r))));
      reflexivity.
Qed.

(** Every stub of the set is visited, and none twice. *)
Lemma set_iter_visits (events : list Event) (ev : Event) :
  In ev (set_iter events) <-> In ev events.
Proof.
  split; apply Permutation_in; [apply set_iter_perm|].
  apply Permutation_sym, set_iter_perm.
Qed.

End Resolving.

Lemma length_pos_of_nonempty (b : string) : b <> EmptyString -> (0 < String.length b)%nat.
Proof. destruct b; [congruence | simpl; lia]. Qed.

(** No occurrence before [pre] ends: the matcher fails at every offset
    inside [pre]. *)
Lemma no_match_before (r : Re.regex) (whole pre rest : string) (pos : nat) :
  (forall i, occurs_at r (pre +:+ rest) i -> (String.length pre <= i)%nat) ->
  forall a b, pre = a +:+ b -> b <> EmptyString ->
              Re.match_at r whole (b +:+ rest) (pos + String.length a)%nat = None.
Proof.
  intros Hocc a b -> Hb.
  destruct (Re.match_at r whole (b +:+ rest) (pos + String.length a)%nat) as [m|] eqn:Hm;
    [|reflexivity].
  destruct (ReFacts.match_at_sound _ _ _ _ _ Hm) as (s1 & s2 & Hs & L).
  assert (Ho : occurs_at r ((a +:+ b) +:+ rest) (String.length a)).
  { exists a, s1, s2. rewrite StrFacts.app_assoc, Hs. auto. }
  apply Hocc in Ho. rewrite StrFacts.length_app in Ho.
  apply length_pos_of_nonempty in Hb. lia.
Qed.

Lemma search_first (r : Re.regex) (pre rest : string) (m : Re.Match) :
  (forall i, occurs_at r (pre +:+ rest) i -> (String.length pre <= i)%nat) ->
  Re.match_at r (pre +:+ rest) rest (String.length pre) = Some m ->
  Re.search r (pre +:+ rest) = Some m.
Proof.
  intros Hocc Hm. unfold Re.search.
  rewrite ReFacts.search_from_skip.
  - now apply ReFacts.search_from_hit.
  - now apply no_match_before.
Qed.

Lemma search_nowhere (r : Re.regex) (s : string) :
  (forall i, ~ occurs_at r s i) -> Re.search r s = None.
Proof.
  intros Hocc. unfold Re.search. apply ReFacts.search_from_none.
  intros a b ->.
  destruct (Re.match_at r (a +:+ b) b (0 + String.length a)%nat) as [m|] eqn:Hm;
    [|reflexivity].
  destruct (ReFacts.match_at_sound _ _ _ _ _ Hm) as (s1 & s2 & -> & L).
  exfalso. apply (Hocc (String.length a)). now exists a, s1, s2.
Qed.

(** The matcher on the marker literal of the test pages. *)
Lemma literal_match (whole post : string) (n : nat) :
  Re.match_at marker_pattern whole (marker_literal +:+ post) n
  = Some (Re.mkMatch whole n (34 + n)
                     [(2, (29 + n, 33 + n)%nat); (1, (23 + n, 28 + n)%nat)]).
Proof. reflexivity. Qed.

Lemma literal_groups (pre post : string) :
  let whole := pre +:+ marker_literal +:+ post in
  let n := String.length pre in
  let m := Re.mkMatch whole n (34 + n)
                      [(2, (29 + n, 33 + n)%nat); (1, (23 + n, 28 + n)%nat)] in
  Re.group 1 m = "48.85" /\ Re.group 2 m = "2.35".
Proof.
  intros whole n m. unfold Re.group, Str.slice, m.
  cbn [Re.span_of Re.m_caps Re.m_string Nat.eqb].
  replace (28 + n - (23 + n))%nat with 5%nat by lia.
  replace (33 + n - (29 + n))%nat with 4%nat by lia.
  subst whole n. rewrite (Nat.add_comm 23), (Nat.add_comm 29).
  rewrite !StrFacts.substring_skip. split; reflexivity.
Qed.

(** Whether the pattern matches at an offset depends on the text from
    that offset on, and on nothing else. *)
Lemma match_at_indep (r : Re.regex) (w1 w2 s : string) (p1 p2 : nat) :
  Re.match_at r w1 s p1 <> None -> Re.match_at r w2 s p2 <> None.
Proof.
  destruct (Re.match_at r w1 s p1) as [m|] eqn:Hm; [intros _|congruence].
  destruct (ReFacts.match_at_sound _ _ _ _ _ Hm) as (s1 & s2 & -> & L).
  now apply ReFacts.match_at_complete.
Qed.

Lemma occurs_in_offsets (r : Re.regex) (s : string) (i : nat) :
  occurs_at r s i -> In i (match_offsets r s).
Proof.
  intros (a & m & b & -> & <- & L). unfold match_offsets.
  change (String.length a) with (0 + String.length a)%nat.
  generalize 0%nat. induction a as [|c a IH]; intros pos.
  - simpl String.length. rewrite Nat.add_0_r. simpl String.append.
    assert (H : Re.match_at r (m +:+ b) (m +:+ b) pos <> None)
      by now apply ReFacts.match_at_complete.
    destruct (m +:+ b) as [|c t] eqn:Hs; simpl;
      destruct (Re.match_at r _ _ pos); try congruence; now left.
  - simpl. apply in_or_app. right. rewrite <- Nat.add_succ_comm. apply IH.
Qed.

(** ** C5: one marker literal, or none *)

(** C5. The detail page of an event was fetched, with a status that is no
    error (below 400 or from 600 on).  If its body holds the marker
    literal [var marker = L.marker([48.85,2.35]] and the marker pattern
    occurs nowhere else in it, the event is resolved to a new event with
    the link and the date of the stub and the coordinates 48.85 and 2.35:
    the binary64 numbers nearest to these fractions, given by mantissa and
    exponent.  If the marker pattern occurs nowhere in the body, no event
    is made for the stub: the lack of a marker is logged and the events
    resolved so far are returned, or, where the console cannot print that
    line, its [MarkupError] is raised. *)
Theorem C5_marker_extraction `{E : Env}
        (marker_positions : list Event) (evt : Event) (st : State)
        (page : Response) (w : World) :
  requests_get (link evt) (world st) = (inr page, w) ->
  (status_code page < 400 \/ 600 <= status_code page)%Z ->
  (forall pre post,
      text page = pre +:+ marker_literal +:+ post ->
      (forall i, occurs_at marker_pattern (text page) i -> i = String.length pre) ->
      resolve marker_positions evt st
      = (inr (marker_positions
              ++ [mkEvent (link evt) (datetime evt) lat_48_85 lon_2_35]),
         mkState w (console st ++ [LogFoundMarker lat_48_85 lon_2_35]) (files st)))
  /\ ((forall i, ~ occurs_at marker_pattern (text page) i) ->
      resolve marker_positions evt st
      = match console_error (LogNoMarker (link evt)) with
        | None => (inr marker_positions,
                   mkState w (console st ++ [LogNoMarker (link evt)]) (files st))
        | Some d => (inl (MarkupError d), mkState w (console st) (files st))
        end)
  /\ nearest_double 4885 100 lat_48_85
  /\ nearest_double 235 100 lon_2_35.
Proof.
  intros Hg Hs. apply not_error_status in Hs. split; [|split].
  - intros pre post Ht Hone.
    assert (Hm : Re.search marker_pattern (text page)
                 = Some (Re.mkMatch (text page) (String.length pre) (34 + String.length pre)
                                    [(2, (29 + String.length pre, 33 + String.length pre)%nat);
                                     (1, (23 + String.length pre, 28 + String.length pre)%nat)])).
    { rewrite Ht. apply search_first.
      - intros i Hi. rewrite <- Ht in Hi. apply Hone in Hi. lia.
      - apply literal_match. }
    rewrite (resolve_found _ _ _ _ _ _ Hg Hs Hm). rewrite Ht.
    destruct (literal_groups pre post) as [-> ->]. reflexivity.
  - intros Hnone. apply (resolve_not_found _ _ _ _ _ Hg Hs).
    now apply search_nowhere.
  - split; vm_compute; repeat split; discriminate.
Qed.

Lemma C5_witness :
  resolve (E := DetailPages.world) [] (DetailPages.stub Demo.paris_run) (Demo.start DetailPages.world tt)
  = (inr [mkEvent Demo.paris_run (DateTime.mk 2024 4 5) lat_48_85 lon_2_35],
     @mkState DetailPages.world tt [LogFoundMarker lat_48_85 lon_2_35] ∅)
  /\ resolve (E := DetailPages.world) [] (DetailPages.stub Demo.lyon_swim) (Demo.start DetailPages.world tt)
     = (inr [], @mkState DetailPages.world tt [LogNoMarker Demo.lyon_swim] ∅).
Proof.
  split.
  - refine (proj1 (C5_marker_extraction (E := DetailPages.world) []
                     (DetailPages.stub Demo.paris_run) (Demo.start DetailPages.world tt)
                     (Demo.ok (Demo.detail "48.85" "2.35")) tt eq_refl _)
                  "<script>" ").addTo(map);</script>" eq_refl _).
    + left. simpl. lia.
    + intros i Hi. apply occurs_in_offsets in Hi. vm_compute in Hi.
      destruct Hi as [<-|[]]. reflexivity.
  - refine (proj1 (proj2 (C5_marker_extraction (E := DetailPages.world) []
                            (DetailPages.stub Demo.lyon_swim) (Demo.start DetailPages.world tt)
                            (Demo.ok DetailPages.no_map) tt eq_refl _)) _).
    + left. simpl. lia.
    + intros i Hi. apply occurs_in_offsets in Hi. vm_compute in Hi. destruct Hi.
Defined.

(** ** The matcher on a marker construction *)

Module MarkerFacts.
Import Re.

Lemma coord_not_space (c : ascii) : coord_char c = true -> Chars.is_space c = false.
Proof. destruct c as [[] [] [] [] [] [] [] []]; vm_compute; congruence. Qed.

Lemma space_not_coord (c : ascii) : Chars.is_space c = true -> coord_char c = false.
Proof. destruct c as [[] [] [] [] [] [] [] []]; vm_compute; congruence. Qed.

Lemma heads_off_app (p q : ascii -> bool) (w t : string) :
  (forall c, q c = true -> p c = false) ->
  Str.all q w = true -> heads_off p t -> heads_off p (w +:+ t).
Proof.
  intros Hqp Hw Ht. destruct w as [|c w]; simpl in *; [exact Ht|].
  apply andb_prop in Hw as [Hc _]. now apply Hqp.
Qed.

Section Steps.
Context {R : Type}.

Lemma lit_run (l : string) :
  forall rest pos caps (k : @cont R),
    rmatch (lit l) (l +:+ rest) pos caps k = k rest (pos + String.length l)%nat caps.
Proof.
  induction l as [|c l IH]; intros rest pos caps k; simpl.
  - now rewrite Nat.add_0_r.
  - unfold Chars.one at 1. rewrite Ascii.eqb_refl, IH. now rewrite Nat.add_succ_comm.
Qed.

Lemma star_run p (w t : string) caps (k : @cont R) x :
  Str.all p w = true -> heads_off p t ->
  forall pos,
    k t (pos + String.length w)%nat caps = Some x ->
    star_loop p caps k (w +:+ t) pos = Some x.
Proof.
  intros Hw Ht. induction w as [|c w IH]; intros pos Hk; simpl in *.
  - rewrite Nat.add_0_r in Hk. destruct t as [|c t]; simpl; [exact Hk|].
    simpl in Ht. now rewrite Ht.
  - apply andb_prop in Hw as [Hc Hw]. rewrite Hc, (IH Hw (S pos)); [reflexivity|].
    now rewrite Nat.add_succ_comm.
Qed.

Lemma plus_run p (w t : string) caps (k : @cont R) x pos :
  w <> EmptyString -> Str.all p w = true -> heads_off p t ->
  k t (pos + String.length w)%nat caps = Some x ->
  rmatch (plus p) (w +:+ t) pos caps k = Some x.
Proof.
  intros Hne Hw Ht Hk. destruct w as [|c w]; [congruence|]. simpl in *.
  apply andb_prop in Hw as [Hc Hw]. rewrite Hc.
  apply star_run; [exact Hw | exact Ht|]. now rewrite Nat.add_succ_comm.
Qed.

(** The same steps, with the offset written as the length of what was
    read so far. *)
Lemma lit_step (l c rest : string) caps (k : @cont R) x :
  k rest (String.length (c +:+ l)) caps = Some x ->
  rmatch (lit l) (l +:+ rest) (String.length c) caps k = Some x.
Proof. rewrite lit_run, StrFacts.length_app. trivial. Qed.

Lemma star_step p (w c t : string) caps (k : @cont R) x :
  Str.all p w = true -> heads_off p t ->
  k t (String.length (c +:+ w)) caps = Some x ->
  star_loop p caps k (w +:+ t) (String.length c) = Some x.
Proof. intros Hw Ht Hk. apply star_run; trivial. now rewrite <- StrFacts.length_app. Qed.

Lemma plus_step p (w c t : string) caps (k : @cont R) x :
  w <> EmptyString -> Str.all p w = true -> heads_off p t ->
  k t (String.length (c +:+ w)) caps = Some x ->
  rmatch (plus p) (w +:+ t) (String.length c) caps k = Some x.
Proof. intros Hn Hw Ht Hk. apply plus_run; trivial. now rewrite <- StrFacts.length_app. Qed.
End Steps.

Lemma slice_mid (a g b s : string) :
  s = a +:+ g +:+ b ->
  Str.slice (String.length a) (String.length (a +:+ g)) s = g.
Proof.
  intros ->. unfold Str.slice. rewrite StrFacts.length_app.
  replace (String.length a + String.length g - String.length a)%nat
    with (String.length g) by lia.
  rewrite <- (Nat.add_0_r (String.length a)) at 1.
  rewrite StrFacts.substring_skip. apply StrFacts.substring_take.
Qed.

Lemma heads_off_coord (g t : string) :
  coord_text g -> heads_off Chars.is_space (g +:+ t).
Proof.
  intros [Hne Hg]. destruct g as [|c g]; [congruence|]. simpl in *.
  apply andb_prop in Hg as [Hc _]. now apply coord_not_space.
Qed.

(** At the start of a marker construction the pattern matches, and its
    groups are the two coordinate texts. *)
Lemma shape_match (occ g1 g2 : string) :
  marker_shape occ g1 g2 ->
  forall pre post,
  exists m,
    match_at marker_pattern (pre +:+ occ +:+ post) (occ +:+ post) (String.length pre) = Some m
    /\ m_start m = String.length pre /\ group 1 m = g1 /\ group 2 m = g2.
Proof.
  intros (w1 & w2 & w3 & w4 & w5 & w6 & w7 & w8 & Hne & Hw & Hg1 & Hg2 & ->) pre post.
  repeat match goal with
         | H : Forall _ (_ :: _) |- _ => apply Forall_cons_iff in H as [? H]
         end.
  eexists. split.
  - unfold match_at, marker_pattern. cbn [seq rmatch].
    rewrite !StrFacts.app_assoc.
    apply (lit_step "var"). apply plus_step; [assumption | assumption | reflexivity |].
    apply (lit_step "marker"). cbn [rmatch]. apply star_step; [assumption | reflexivity |].
    apply (lit_step "="). cbn [rmatch]. apply star_step; [assumption | reflexivity |].
    apply (lit_step "L.marker("). cbn [rmatch]. apply star_step; [assumption | reflexivity |].
    apply (lit_step "["). cbn [rmatch].
    apply star_step; [assumption | now apply heads_off_coord |].
    cbn [rmatch].
    apply plus_step; [apply Hg1 | apply Hg1 | |].
    { apply (heads_off_app _ Chars.is_space); [apply space_not_coord | assumption | reflexivity]. }
    cbn [rmatch]. apply star_step; [assumption | reflexivity |].
    apply (lit_step ","). cbn [rmatch].
    apply star_step; [assumption | now apply heads_off_coord |].
    cbn [rmatch].
    apply plus_step; [apply Hg2 | apply Hg2 | |].
    { apply (heads_off_app _ Chars.is_space); [apply space_not_coord | assumption | reflexivity]. }
    cbn [rmatch]. apply star_step; [assumption | reflexivity |].
    apply (lit_step "]"). reflexivity.
  - split; [reflexivity|].
    unfold group. cbn [span_of m_caps m_string Nat.eqb]. split.
    + apply slice_mid with (b := w6 +:+ "," +:+ w7 +:+ g2 +:+ w8 +:+ "]" +:+ post).
      now rewrite !StrFacts.app_assoc.
    + apply slice_mid with (b := w8 +:+ "]" +:+ post).
      now rewrite !StrFacts.app_assoc.
Qed.

End MarkerFacts.

(** ** C10: several marker constructions in one body *)

(** C10. The detail page of an event was fetched, with a status that is no
    error, and in its body a marker construction with the coordinate texts
    [g1] and [g2] starts where [pre] ends, no occurrence of the marker
    pattern starting earlier.  Then the search returns the match at that
    offset with the groups [g1] and [g2], and the event is resolved from
    them alone: whatever follows the construction, further marker
    constructions included, has no part in the result. *)
Theorem C10_first_occurrence_wins `{E : Env}
        (marker_positions : list Event) (evt : Event) (st : State)
        (page : Response) (w : World) (pre occ post g1 g2 : string) :
  requests_get (link evt) (world st) = (inr page, w) ->
  is_error_status (status_code page) = false ->
  text page = pre +:+ occ +:+ post ->
  marker_shape occ g1 g2 ->
  (forall i, occurs_at marker_pattern (text page) i -> (String.length pre <= i)%nat) ->
  (exists m, Re.search marker_pattern (text page) = Some m
             /\ Re.m_start m = String.length pre
             /\ Re.group 1 m = g1 /\ Re.group 2 m = g2)
  /\ resolve marker_positions evt st
     = match PyFloat.float g1, PyFloat.float g2 with
       | inr la, inr lo =>
           (inr (marker_positions ++ [mkEvent (link evt) (datetime evt) la lo]),
            mkState w (console st ++ [LogFoundMarker la lo]) (files st))
       | inl e, _ => (inl e, mkState w (console st) (files st))
       | inr _, inl e => (inl e, mkState w (console st) (files st))
       end.
Proof.
  intros Hg Hs Ht Hshape Hfirst.
  destruct (MarkerFacts.shape_match _ _ _ Hshape pre post) as (m & Hm & Hstart & G1 & G2).
  assert (Hsearch : Re.search marker_pattern (text page) = Some m).
  { rewrite Ht. apply search_first; [|exact Hm].
    intros i Hi. apply Hfirst. now rewrite Ht. }
  split.
  - now exists m.
  - rewrite (resolve_found _ _ _ _ _ _ Hg Hs Hsearch), G1, G2. reflexivity.
Qed.

Lemma C10_witness :
  (exists m, Re.search marker_pattern TwoMarkers.body = Some m
             /\ Re.m_start m = 8%nat
             /\ Re.group 1 m = "48.85" /\ Re.group 2 m = "2.35")
  /\ resolve (E := TwoMarkers.world) [] (DetailPages.stub Demo.paris_run)
             (Demo.start TwoMarkers.world tt)
     = (inr [mkEvent Demo.paris_run (DateTime.mk 2024 4 5)
                     (PyFloat.literal "48.85") (PyFloat.literal "2.35")],
        @mkState TwoMarkers.world tt
                 [LogFoundMarker (PyFloat.literal "48.85") (PyFloat.literal "2.35")] ∅).
Proof.
  apply (C10_first_occurrence_wins (E := TwoMarkers.world) []
           (DetailPages.stub Demo.paris_run) (Demo.start TwoMarkers.world tt)
           (Demo.ok TwoMarkers.body) tt "<script>" TwoMarkers.first TwoMarkers.later
           "48.85" "2.35" eq_refl eq_refl eq_refl).
  - exists " ", " ", " ", EmptyString, EmptyString, EmptyString, EmptyString, EmptyString.
    repeat split; try discriminate; repeat constructor.
  - intros i Hi. apply occurs_in_offsets in Hi. vm_compute in Hi.
    destruct Hi as [<-|[<-|[]]]; simpl; lia.
Defined.

(** ** Dates *)

Module DateFacts.
Import Re.

Lemma rmatch_map {R R'} (g : R -> R') r :
  forall s pos caps (k : @cont R) (k' : @cont R'),
    (forall s p c, k' s p c = option_map g (k s p c)) ->
    rmatch r s pos caps k' = option_map g (rmatch r s pos caps k).
Proof.
  induction r as [|p|r1 IH1 r2 IH2|r1 IH1 r2 IH2|p|i r IH];
    intros s pos caps k k' Hk; simpl.
  - apply Hk.
  - destruct s as [|c t]; [reflexivity|]. destruct (p c); [apply Hk | reflexivity].
  - apply IH1. intros. now apply IH2.
  - rewrite (IH1 _ _ _ k k' Hk), (IH2 _ _ _ k k' Hk).
    now destruct (rmatch r1 s pos caps k).
  - revert pos. induction s as [|c t IHs]; intros pos; simpl; [apply Hk|].
    destruct (p c); [|apply Hk]. rewrite IHs, Hk.
    now destruct (star_loop p caps k t (S pos)).
  - apply IH. intros. apply Hk.
Qed.

Lemma digit_listed (c : ascii) : Chars.is_digit c = true -> In c digit_chars.
Proof.
  intros H.
  assert (G : existsb (Ascii.eqb c) digit_chars = true).
  { revert H. destruct c as [[] [] [] [] [] [] [] []]; vm_compute; congruence. }
  apply existsb_exists in G as (x & Hx & Heq). apply Ascii.eqb_eq in Heq. now subst.
Qed.

Lemma after_year_table :
  forallb (fun m1 => forallb (fun m2 => forallb (fun d1 => forallb (fun d2 =>
    after_year_ok m1 m2 d1 d2) digit_chars) digit_chars) digit_chars) digit_chars = true.
Proof. vm_compute. reflexivity. Qed.

Lemma days_in_month_le (y m : Z) : (DateTime.days_in_month y m <= 31)%Z.
Proof.
  unfold DateTime.days_in_month.
  repeat match goal with |- context [if ?b then _ else _] => destruct b end; lia.
Qed.

Lemma year_step {R} (y1 y2 y3 y4 : ascii) (rest : string) (T : regex) (k : @cont R) :
  Chars.is_digit y1 = true -> Chars.is_digit y2 = true ->
  Chars.is_digit y3 = true -> Chars.is_digit y4 = true ->
  rmatch (Cat DateTime.year_re T) (String y1 (String y2 (String y3 (String y4 rest)))) 0 [] k
  = rmatch T rest 4 [(1, (0, 4))%nat] k.
Proof. intros H1 H2 H3 H4. simpl. now rewrite H1, H2, H3, H4. Qed.

(** A text in the strict format is parsed to the date it names. *)
Lemma strptime_iso (s : string) (dt : DateTime.datetime) :
  spec_iso_date s = Some dt -> DateTime.strptime s = inr dt.
Proof.
  unfold spec_iso_date.
  do 10 (destruct s as [|? s]; [discriminate|]). destruct s; [|discriminate].
  rename a into y1, a0 into y2, a1 into y3, a2 into y4, a3 into h1, a4 into m1,
    a5 into m2, a6 into h2, a7 into d1, a8 into d2.
  destruct (forallb _ _ && _ && _) eqn:Hc; [|discriminate].
  apply andb_prop in Hc as [Hc Hh2]. apply andb_prop in Hc as [Hd Hh1].
  cbn [forallb] in Hd.
  apply andb_prop in Hd as [Hy1 Hd]. apply andb_prop in Hd as [Hy2 Hd].
  apply andb_prop in Hd as [Hy3 Hd]. apply andb_prop in Hd as [Hy4 Hd].
  apply andb_prop in Hd as [Hm1 Hd]. apply andb_prop in Hd as [Hm2 Hd].
  apply andb_prop in Hd as [Hd1 Hd]. apply andb_prop in Hd as [Hd2 _].
  apply Ascii.eqb_eq in Hh1, Hh2. subst h1 h2.
  cbv zeta.
  destruct (DateTime.valid _ _ _) eqn:Hv; [|discriminate].
  intros [= <-].
  pose proof Hv as Hv'. unfold DateTime.valid in Hv'.
  apply andb_prop in Hv' as [Hv' Hdhi]. apply andb_prop in Hv' as [Hv' Hdlo].
  apply andb_prop in Hv' as [Hv' Hmhi]. apply andb_prop in Hv' as [Hv' Hmlo].
  clear Hv'.
  assert (Ht : after_year (String "-" (String m1 (String m2 (String "-"
                             (String d1 (String d2 EmptyString))))))
               = Some (10, [(3, (8, 10)); (2, (5, 7)); (1, (0, 4))])%nat).
  { pose proof after_year_table as T.
    rewrite forallb_forall in T. specialize (T m1 (digit_listed m1 Hm1)).
    rewrite forallb_forall in T. specialize (T m2 (digit_listed m2 Hm2)).
    rewrite forallb_forall in T. specialize (T d1 (digit_listed d1 Hd1)).
    rewrite forallb_forall in T. specialize (T d2 (digit_listed d2 Hd2)).
    unfold after_year_ok in T. cbv zeta in T.
    pose proof (days_in_month_le
                  (1000 * PyFloat.digit_val y1 + 100 * PyFloat.digit_val y2
                   + 10 * PyFloat.digit_val y3 + PyFloat.digit_val y4)
                  (10 * PyFloat.digit_val m1 + PyFloat.digit_val m2)) as Hdm.
    replace ((1 <=? _)%Z && _ && _ && _) with true in T.
    - simpl implb in T. now apply bool_decide_eq_true in T.
    - symmetry. repeat (apply andb_true_intro; split); try assumption.
      apply Z.leb_le. apply Z.leb_le in Hdhi. lia. }
  unfold DateTime.strptime, match_, match_at, DateTime.format_regex.
  change (seq [DateTime.year_re; lit "-"; DateTime.month_re; lit "-"; DateTime.day_re])
    with (Cat DateTime.year_re
              (seq [lit "-"; DateTime.month_re; lit "-"; DateTime.day_re])).
  rewrite year_step by assumption.
  rewrite (rmatch_map (fun '(e, caps) => mkMatch _ 0 e caps) _ _ _ _
                      (fun _ e caps => Some (e, caps)))
    by (intros; reflexivity).
  unfold after_year in Ht. rewrite Ht.
  cbn [option_map m_end String.length Nat.eqb negb].
  unfold group. cbn [span_of m_caps m_string Nat.eqb Str.slice Nat.sub substring].
  cbn [DateTime.int_of].
  repeat match goal with
         | H : Chars.is_digit ?c = true |- context [Chars.is_digit ?c] => rewrite H
         end.
  match goal with
  | |- (if DateTime.valid ?a ?b ?c then _ else _) = inr (DateTime.mk ?y ?m ?d) =>
      replace a with y by lia; replace b with m by lia; replace c with d by lia
  end.
  now rewrite Hv.
Qed.

End DateFacts.

(** ** C6: the date of a listing entry *)

(** C6, the claim as stated fails: the attribute [2024-4-5] is not of the
    format [YYYY-MM-DD], yet [strptime] reads it; the entry is not
    excluded and nothing is logged about it. *)
Lemma C6_counterexample :
  let r := extract_event_links_and_dates (E := Dates.world)
             (Demo.page_of Dates.short) Demo.listing0 (Demo.start Dates.world tt) in
  spec_iso_date "2024-4-5" = None
  /\ fst r = inr [mkEvent Demo.paris_run (DateTime.mk 2024 4 5) float0 float0]
  /\ console (snd r) = [LogEventsFound 1].
Proof. repeat split; vm_compute; reflexivity. Qed.

(** C6, amended. For a listing entry that has its link element and its
    [time] element with the datetime attribute [s]: if [s] is of the
    format [YYYY-MM-DD] and names a calendar date, or more generally if
    [strptime] with [%Y-%m-%d] accepts [s] (it also accepts months and
    days of one digit), the entry's event carries exactly that date.  If
    [strptime] rejects [s], the entry adds no event and a warning is
    logged in its place (with the [ValueError] of [strptime] when the link
    could be resolved); where the console prints that warning, the events
    of the page and the other lines of the console are those of the page
    without the entry; where it cannot, the scan stops at the entry with
    the [MarkupError] of the console. *)
Theorem C6_date_parsing `{E : Env}
        (base_url : string) (li : Li) (a t : Tag) (s : string)
        (events : list Event) (st : State) :
  a_tag li = Some a ->
  time_tag li = Some t ->
  getitem t "datetime" = inr s ->
  (forall dt href url,
      spec_iso_date s = Some dt \/ DateTime.strptime s = inr dt ->
      getitem a "href" = inr href ->
      urljoin base_url href = inr url ->
      scan_entry base_url events li st
      = (inr (set_add (mkEvent url dt float0 float0) events), st))
  /\ (forall e,
         DateTime.strptime s = inl e ->
         exists w,
           (forall href url,
               getitem a "href" = inr href -> urljoin base_url href = inr url -> w = e)
           /\ scan_entry base_url events li st
              = match console_error (LogIssueParsing w) with
                | None => (inr events, logged st [LogIssueParsing w])
                | Some d => (inl (MarkupError d), st)
                end
           /\ forall pre post,
               scan_entries base_url (pre ++ li :: post) events st
               = (evs ← scan_entries base_url pre events;
                  log (LogIssueParsing w);;
                  scan_entries base_url post evs) st
               /\ (console_error (LogIssueParsing w) = None ->
                   forall evs st',
                     scan_entries base_url (pre ++ post) events st = (inr evs, st') ->
                     exists lg1 lg2,
                       st' = logged st (lg1 ++ lg2)
                       /\ scan_entries base_url (pre ++ li :: post) events st
                          = (inr evs, logged st (lg1 ++ LogIssueParsing w :: lg2)))).
Proof.
  intros Ha Ht Hs. split.
  - intros dt href url Hdt Hh Hu.
    assert (Hp : DateTime.strptime s = inr dt).
    { destruct Hdt as [Hdt|Hdt]; [now apply DateFacts.strptime_iso | exact Hdt]. }
    rewrite scan_entry_run. unfold entry_event. now rewrite Ha, Ht, Hh, Hu, Hs, Hp.
  - intros e Hp.
    assert (Hw : exists w, entry_event base_url li = inl w
                           /\ forall href url, getitem a "href" = inr href ->
                                               urljoin base_url href = inr url -> w = e).
    { unfold entry_event. rewrite Ha, Ht.
      destruct (getitem a "href") as [x|href] eqn:Hh.
      { exists x; split; [reflexivity|]. intros href' url'. discriminate. }
      destruct (urljoin base_url href) as [x|url] eqn:Hu.
      - exists x; split; [reflexivity|]. intros href' url' [= <-]. congruence.
      - rewrite Hs, Hp. now exists e. }
    destruct Hw as [w [Hw Hwe]]. exists w. split; [exact Hwe|]. split.
    { now rewrite scan_entry_run, Hw. }
    intros pre post. now apply warning_in_place.
Qed.

Lemma C6_witness :
  let st := Demo.start Dates.world tt in
  scan_entry (E := Dates.world) Demo.listing0 [] Dates.strict st
  = (inr (set_add (E := Dates.world)
                  (mkEvent Demo.paris_run (DateTime.mk 2024 4 5) float0 float0) []), st)
  /\ exists w,
       (forall href url,
           getitem (mkTag {[ "href" := Demo.lyon_swim ]}) "href" = inr href ->
           urljoin (Env := Dates.world) Demo.listing0 href = inr url ->
           w = ValueError "05/04/2024")
       /\ scan_entry (E := Dates.world) Demo.listing0 [] Dates.slashed st
          = match console_error (Env := Dates.world) (LogIssueParsing w) with
            | None => (inr [], logged st [LogIssueParsing w])
            | Some d => (inl (MarkupError d), st)
            end
       /\ forall pre post,
           scan_entries (E := Dates.world) Demo.listing0 (pre ++ Dates.slashed :: post) [] st
           = (evs ← scan_entries (E := Dates.world) Demo.listing0 pre [];
              log (LogIssueParsing w);;
              scan_entries (E := Dates.world) Demo.listing0 post evs) st
           /\ (console_error (Env := Dates.world) (LogIssueParsing w) = None ->
               forall evs st',
                 scan_entries (E := Dates.world) Demo.listing0 (pre ++ post) [] st
                 = (inr evs, st') ->
                 exists lg1 lg2,
                   st' = logged st (lg1 ++ lg2)
                   /\ scan_entries (E := Dates.world) Demo.listing0
                                   (pre ++ Dates.slashed :: post) [] st
                      = (inr evs, logged st (lg1 ++ LogIssueParsing w :: lg2))).
Proof.
  intros st. split.
  - apply (proj1 (C6_date_parsing (E := Dates.world) Demo.listing0 Dates.strict
                    (mkTag {[ "href" := Demo.paris_run ]})
                    (mkTag {[ "datetime" := "2024-04-05" ]})
                    "2024-04-05" [] st eq_refl eq_refl eq_refl)
                 (DateTime.mk 2024 4 5) Demo.paris_run Demo.paris_run).
    + left; reflexivity.
    + reflexivity.
    + reflexivity.
  - apply (proj2 (C6_date_parsing (E := Dates.world) Demo.listing0 Dates.slashed
                    (mkTag {[ "href" := Demo.lyon_swim ]})
                    (mkTag {[ "datetime" := "05/04/2024" ]})
                    "05/04/2024" [] st eq_refl eq_refl eq_refl)
                 (ValueError "05/04/2024")).
    reflexivity.
Defined.

(** ** Further properties: events and the set of stubs *)

Section Stubs.
Context `{E : Env}.

Lemma DateTime_eqb_eq (a b : DateTime.datetime) : DateTime.eqb a b = true <-> a = b.
Proof.
  destruct a as [y m d], b as [y' m' d']. unfold DateTime.eqb; simpl.
  rewrite !andb_true_iff, !Z.eqb_eq. split; [intros [[-> ->] ->]; reflexivity|].
  intros [= -> -> ->]. auto.
Qed.

Lemma Event_eqb_hash (a b : Event) : Event_eqb a b = true -> Event_hash a = Event_hash b.
Proof.
  unfold Event_eqb, Event_hash. rewrite !andb_true_iff.
  intros [[[H _] _] _]. apply String.eqb_eq in H. now rewrite H.
Qed.

Lemma set_contains_eqb (x : Event) (s : list Event) :
  set_contains x s = existsb (fun y => Event_eqb y x) s.
Proof.
  unfold set_contains. induction s as [|y s IH]; simpl; [reflexivity|].
  rewrite IH. f_equal. destruct (Event_eqb y x) eqn:He; [|apply andb_false_r].
  apply Event_eqb_hash in He. rewrite He, Z.eqb_refl. reflexivity.
Qed.

Lemma stub_eqb (a b : Event) :
  is_stub a -> is_stub b -> (Event_eqb a b = true <-> key a = key b).
Proof.
  intros (La & Lo & _) (Lb & Lob & _). unfold Event_eqb, key.
  rewrite La, Lo, Lb, Lob. simpl. rewrite !andb_true_r, andb_true_iff.
  rewrite String.eqb_eq, DateTime_eqb_eq. split; [intros [-> ->]; reflexivity|].
  intros [= -> ->]. auto.
Qed.

Lemma strptime_valid (s : string) (dt : DateTime.datetime) :
  DateTime.strptime s = inr dt ->
  DateTime.valid (DateTime.year dt) (DateTime.month dt) (DateTime.day dt) = true.
Proof.
  unfold DateTime.strptime. destruct (Re.match_ _ s) as [m|]; [|discriminate].
  destruct (negb _); [discriminate|].
  destruct (DateTime.valid _ _ _) eqn:Hv; [|discriminate].
  intros [= <-]. exact Hv.
Qed.

Lemma entry_event_stub (base_url : string) (li : Li) (ev : Event) :
  entry_event base_url li = inr (Some ev) -> is_stub ev.
Proof.
  unfold entry_event. destruct (a_tag li) as [a|]; [|discriminate].
  destruct (time_tag li) as [t|]; [|discriminate].
  destruct (getitem a "href") as [?|href]; [discriminate|].
  destruct (urljoin base_url href) as [?|url]; [discriminate|].
  destruct (getitem t "datetime") as [?|date]; [discriminate|].
  destruct (DateTime.strptime date) as [?|dt] eqn:Hp; [discriminate|].
  intros [= <-]. repeat split. simpl. exact (strptime_valid _ _ Hp).
Qed.

Lemma set_contains_key (x : Event) (s : list Event) :
  is_stub x -> Forall is_stub s ->
  (set_contains x s = true <-> In (key x) (map key s)).
Proof.
  intros Hx Hs. rewrite set_contains_eqb, existsb_exists, in_map_iff.
  rewrite List.Forall_forall in Hs.
  split; intros (y & H1 & H2).
  - exists y. split; [|exact H1]. apply stub_eqb; auto.
  - exists y. split; [exact H2|]. apply stub_eqb; auto.
Qed.

Lemma set_add_stubs (x : Event) (s : list Event) :
  is_stub x -> Forall is_stub s -> NoDup (map key s) ->
  Forall is_stub (set_add x s) /\ NoDup (map key (set_add x s)).
Proof.
  intros Hx Hs Hn. unfold set_add. destruct (set_contains x s) eqn:Hc; [auto|].
  split.
  - apply Forall_app. auto.
  - rewrite map_app. simpl. apply NoDup_app. repeat split; trivial.
    + intros k Hk Hk'. apply list_elem_of_In in Hk'. destruct Hk' as [<-|[]].
      apply list_elem_of_In in Hk. apply (set_contains_key x s Hx Hs) in Hk. congruence.
    + apply NoDup_singleton.
Qed.

Lemma scan_pure_stubs (base_url : string) (entries : list Li) :
  forall events evs,
    Forall is_stub events -> NoDup (map key events) ->
    fst (scan_pure base_url entries events) = inr evs ->
    Forall is_stub evs /\ NoDup (map key evs).
Proof.
  induction entries as [|li rest IH]; intros events evs Hs Hn; simpl.
  - intros [= <-]. auto.
  - destruct (entry_event base_url li) as [e|[ev|]] eqn:He.
    + destruct (console_error (LogIssueParsing e)); [discriminate|].
      specialize (IH events evs Hs Hn).
      destruct (scan_pure base_url rest events). exact IH.
    + apply entry_event_stub in He.
      destruct (set_add_stubs ev events He Hs Hn). now apply IH.
    + now apply IH.
Qed.

Lemma length_set_add (ev : Event) (events : list Event) :
  (length (set_add ev events) <= S (length events))%nat.
Proof.
  unfold set_add. destruct (set_contains ev events); [lia|].
  rewrite length_app. simpl. lia.
Qed.

Lemma scan_pure_count (base_url : string) (entries : list Li) :
  forall events,
    Forall is_parse_warning (snd (scan_pure base_url entries events))
    /\ forall evs,
        fst (scan_pure base_url entries events) = inr evs ->
        (length evs + length (snd (scan_pure base_url entries events))
         <= length events + length entries)%nat.
Proof.
  induction entries as [|li rest IH]; intros events; simpl.
  - split; [constructor | intros evs [= <-]; lia].
  - destruct (entry_event base_url li) as [e|[ev|]].
    + destruct (console_error (LogIssueParsing e)).
      * split; [constructor | discriminate].
      * destruct (IH events) as [Hw Hc].
        destruct (scan_pure base_url rest events) as [r lg]; simpl in *.
        split; [constructor; [now exists e | exact Hw]|].
        intros evs Hr. specialize (Hc evs Hr). lia.
    + destruct (IH (set_add ev events)) as [Hw Hc]. split; [exact Hw|].
      intros evs Hr. specialize (Hc evs Hr).
      pose proof (length_set_add ev events). lia.
    + destruct (IH events) as [Hw Hc]. split; [exact Hw|].
      intros evs Hr. specialize (Hc evs Hr). lia.
Qed.

(** What a listing page gave when its scan returned. *)
Lemma extract_returns (html base_url : string) (st st' : State) (events : list Event) :
  extract_event_links_and_dates html base_url st = (inr events, st') ->
  fst (scan_pure base_url (select_entries html) []) = inr events
  /\ st' = logged st (snd (scan_pure base_url (select_entries html) [])
                      ++ [LogEventsFound (length events)]).
Proof.
  rewrite extract_run. cbv zeta.
  destruct (fst (scan_pure base_url (select_entries html) [])) as [x|evs];
    [discriminate|].
  intros [= -> <-]. auto.
Qed.

End Stubs.

(** X1. The hash of an event agrees with its equality: events that are
    equal have the same hash.  So the hash never decides a lookup in the
    set of stubs; an event is found exactly when an element of the set
    is equal to it. *)
Theorem hash_agrees_with_eq `{E : Env} (a b x : Event) (s : list Event) :
  implb (Event_eqb a b) (Event_hash a =? Event_hash b)%Z = true
  /\ set_contains x s = existsb (fun y => Event_eqb y x) s.
Proof.
  split; [|apply set_contains_eqb].
  destruct (Event_eqb a b) eqn:He; [|reflexivity]. simpl.
  apply Z.eqb_eq. now apply Event_eqb_hash.
Qed.

(** X2. When [extract_event_links_and_dates] returns, the network and the
    files are as they were.  The events it returns are stubs (coordinates
    0.0, a date the calendar has) no two of which share link and date; the
    last line it logged counts them. *)
Theorem listing_stubs_form_a_set `{E : Env}
        (html base_url : string) (st st' : State) (events : list Event) :
  extract_event_links_and_dates html base_url st = (inr events, st') ->
  Forall is_stub events
  /\ NoDup (map key events)
  /\ exists msgs, st' = logged st (msgs ++ [LogEventsFound (length events)]).
Proof.
  intros H. apply extract_returns in H as [Hr ->].
  destruct (scan_pure_stubs base_url (select_entries html) [] events) as [Hs Hn];
    [constructor | constructor | exact Hr |].
  repeat split; [exact Hs | exact Hn | eexists; reflexivity].
Qed.

Lemma listing_stubs_form_a_set_witness :
  let events := [ mkEvent Demo.paris_run (DateTime.mk 2024 4 5) float0 float0;
                  mkEvent Demo.lyon_swim (DateTime.mk 2024 5 12) float0 float0 ] in
  Forall is_stub events
  /\ NoDup (map key events)
  /\ exists msgs,
       @mkState Repeats.world tt [LogEventsFound 2] ∅
       = logged (Demo.start Repeats.world tt) (msgs ++ [LogEventsFound (length events)]).
Proof.
  apply (listing_stubs_form_a_set (E := Repeats.world) (Demo.page_of Repeats.twice)
           Demo.listing0 (Demo.start Repeats.world tt)).
  reflexivity.
Defined.

(** X3. Every listing entry gives at most one event or one warning: when
    the scan of a page returns, the number of events returned plus the
    number of lines logged before the summary line is at most the number
    of entries of the page, and each of those lines is a parse warning. *)
Theorem listing_one_outcome_per_entry `{E : Env}
        (html base_url : string) (st st' : State) (events : list Event) :
  extract_event_links_and_dates html base_url st = (inr events, st') ->
  exists msgs,
    st' = logged st (msgs ++ [LogEventsFound (length events)])
    /\ Forall is_parse_warning msgs
    /\ (length events + length msgs <= length (select_entries html))%nat.
Proof.
  intros H. apply extract_returns in H as [Hr ->].
  exists (snd (scan_pure base_url (select_entries html) [])).
  destruct (scan_pure_count base_url (select_entries html) []) as [Hw Hc].
  specialize (Hc events Hr). simpl in Hc. auto.
Qed.

Lemma listing_one_outcome_per_entry_witness :
  exists msgs,
    @mkState Dates.world tt
             [LogIssueParsing (ValueError "05/04/2024"); LogEventsFound 1] ∅
    = logged (Demo.start Dates.world tt) (msgs ++ [LogEventsFound 1])
    /\ Forall is_parse_warning msgs
    /\ (1 + length msgs
        <= length (select_entries (Env := Dates.world) (Demo.page_of Dates.mixed)))%nat.
Proof.
  apply (listing_one_outcome_per_entry (E := Dates.world) (Demo.page_of Dates.mixed)
           Demo.listing0 (Demo.start Dates.world tt) _
           [mkEvent Demo.paris_run (DateTime.mk 2024 4 5) float0 float0]).
  reflexivity.
Defined.

(** ** Further properties: entries listed twice, links without [href] *)

Section Absorbing.
Context `{E : Env}.

Lemma scan_fst_cons (base_url : string) (li : Li) (rest : list Li) (events : list Event) :
  fst (scan_pure base_url (li :: rest) events)
  = match entry_event base_url li with
    | inr (Some ev) => fst (scan_pure base_url rest (set_add ev events))
    | inr None => fst (scan_pure base_url rest events)
    | inl e =>
        match console_error (LogIssueParsing e) with
        | Some d => inl (MarkupError d)
        | None => fst (scan_pure base_url rest events)
        end
    end.
Proof.
  simpl. destruct (entry_event base_url li) as [e|[ev|]]; try reflexivity.
  destruct (console_error (LogIssueParsing e)); [reflexivity|].
  now destruct (scan_pure base_url rest events).
Qed.

Lemma scan_fst_app (base_url : string) (pre post : list Li) (events : list Event) :
  fst (scan_pure base_url (pre ++ post) events)
  = match fst (scan_pure base_url pre events) with
    | inr evs => fst (scan_pure base_url post evs)
    | inl x => inl x
    end.
Proof.
  rewrite scan_pure_app. now destruct (fst (scan_pure base_url pre events)).
Qed.

Lemma stub_eqb_refl (ev : Event) : is_stub ev -> Event_eqb ev ev = true.
Proof. intros H. now apply (stub_eqb ev ev H H). Qed.

Lemma set_contains_added (ev : Event) (s : list Event) :
  is_stub ev -> set_contains ev (set_add ev s) = true.
Proof.
  intros H. unfold set_add. destruct (set_contains ev s) eqn:Hc; [exact Hc|].
  rewrite set_contains_eqb, existsb_app. simpl.
  rewrite (stub_eqb_refl ev H). now rewrite orb_true_r.
Qed.

Lemma set_contains_mono (x y : Event) (s : list Event) :
  set_contains x s = true -> set_contains x (set_add y s) = true.
Proof.
  intros H. unfold set_add. destruct (set_contains y s); [exact H|].
  rewrite set_contains_eqb, existsb_app. rewrite set_contains_eqb in H. now rewrite H.
Qed.

Lemma scan_keeps_contains (base_url : string) (x : Event) (entries : list Li) :
  forall s evs, set_contains x s = true ->
                fst (scan_pure base_url entries s) = inr evs ->
                set_contains x evs = true.
Proof.
  induction entries as [|li rest IH]; intros s evs H.
  - simpl. now intros [= <-].
  - rewrite scan_fst_cons.
    destruct (entry_event base_url li) as [e|[ev|]].
    + destruct (console_error (LogIssueParsing e)); [discriminate | now apply IH].
    + apply IH. now apply set_contains_mono.
    + now apply IH.
Qed.

Lemma scan_absorbs (base_url : string) (li : Li) (mid post : list Li) (s : list Event) :
  fst (scan_pure base_url (li :: mid ++ li :: post) s)
  = fst (scan_pure base_url (li :: mid ++ post) s).
Proof.
  rewrite (scan_fst_cons _ li (mid ++ li :: post)), (scan_fst_cons _ li (mid ++ post)).
  destruct (entry_event base_url li) as [e|[ev|]] eqn:He.
  - destruct (console_error (LogIssueParsing e)) eqn:Hc; [reflexivity|].
    rewrite !scan_fst_app.
    destruct (fst (scan_pure base_url mid s)); [reflexivity|].
    now rewrite scan_fst_cons, He, Hc.
  - rewrite !scan_fst_app.
    destruct (fst (scan_pure base_url mid (set_add ev s))) as [x|evs] eqn:Hm;
      [reflexivity|].
    rewrite scan_fst_cons, He. f_equal. unfold set_add at 1.
    rewrite (scan_keeps_contains base_url ev mid (set_add ev s) evs); [reflexivity| |exact Hm].
    apply set_contains_added. now apply (entry_event_stub base_url li).
  - rewrite !scan_fst_app.
    destruct (fst (scan_pure base_url mid s)); [reflexivity|].
    now rewrite scan_fst_cons, He.
Qed.

End Absorbing.

(** X4. An entry that stands twice in a listing page counts once: the
    page returns the same events as the page without the second copy,
    wherever the copies stand. *)
Theorem entry_listed_twice_counts_once `{E : Env}
        (html html' base_url : string) (pre mid post : list Li) (li : Li) (st : State) :
  select_entries html = pre ++ li :: mid ++ li :: post ->
  select_entries html' = pre ++ li :: mid ++ post ->
  fst (extract_event_links_and_dates html base_url st)
  = fst (extract_event_links_and_dates html' base_url st).
Proof.
  intros Hh Hh'. rewrite !extract_run, Hh, Hh'. cbv zeta.
  assert (H : fst (scan_pure base_url (pre ++ li :: mid ++ li :: post) [])
              = fst (scan_pure base_url (pre ++ li :: mid ++ post) [])).
  { rewrite (scan_fst_app base_url pre), (scan_fst_app base_url pre).
    destruct (fst (scan_pure base_url pre [])); [reflexivity | apply scan_absorbs]. }
  rewrite H.
  destruct (fst (scan_pure base_url (pre ++ li :: mid ++ post) [])); reflexivity.
Qed.

Lemma entry_listed_twice_witness :
  fst (extract_event_links_and_dates (E := Repeats.world) (Demo.page_of Repeats.twice)
                                     Demo.listing0 (Demo.start Repeats.world tt))
  = fst (extract_event_links_and_dates (E := Repeats.world) (Demo.page_of Repeats.once)
                                       Demo.listing0 (Demo.start Repeats.world tt)).
Proof.
  apply (entry_listed_twice_counts_once (E := Repeats.world)
           (Demo.page_of Repeats.twice) (Demo.page_of Repeats.once) Demo.listing0
           [] [Demo.entry Demo.lyon_swim "2024-05-12"] []
           (Demo.entry Demo.paris_run "2024-04-05")).
  - reflexivity.
  - reflexivity.
Defined.

(** X5. A listing entry whose link element has no [href] attribute is
    dropped with the warning of the [KeyError], whatever its date: the
    scan of the page is that of the page without the entry with the
    warning logged in the entry's place; so when the page without the
    entry returns, the page with it returns the same events, and its
    console differs by that one warning. *)
Theorem link_without_href_is_dropped `{E : Env}
        (base_url : string) (li : Li) (a t : Tag) (pre post : list Li)
        (events : list Event) (st : State) :
  a_tag li = Some a ->
  attrs a !! "href" = None ->
  time_tag li = Some t ->
  scan_entries base_url (pre ++ li :: post) events st
  = (evs ← scan_entries base_url pre events;
     log (LogIssueParsing (KeyError "href"));;
     scan_entries base_url post evs) st
  /\ forall evs st',
      scan_entries base_url (pre ++ post) events st = (inr evs, st') ->
      exists lg1 lg2,
        st' = logged st (lg1 ++ lg2)
        /\ scan_entries base_url (pre ++ li :: post) events st
           = (inr evs, logged st (lg1 ++ LogIssueParsing (KeyError "href") :: lg2)).
Proof.
  intros Ha Hh Ht.
  assert (Hw : entry_event base_url li = inl (KeyError "href")).
  { unfold entry_event, getitem. now rewrite Ha, Ht, Hh. }
  destruct (warning_in_place base_url li _ pre post events st Hw) as [H1 H2].
  split; [exact H1|]. apply H2. now apply console_prints_plain.
Qed.

Lemma link_without_href_witness :
  let st := Demo.start Repeats.world tt in
  scan_entries (E := Repeats.world) Demo.listing0
               ([Dates.strict] ++ Repeats.bare :: [Dates.other]) [] st
  = (evs ← scan_entries (E := Repeats.world) Demo.listing0 [Dates.strict] [];
     log (LogIssueParsing (KeyError "href"));;
     scan_entries (E := Repeats.world) Demo.listing0 [Dates.other] evs) st
  /\ forall evs st',
      scan_entries (E := Repeats.world) Demo.listing0
                   ([Dates.strict] ++ [Dates.other]) [] st = (inr evs, st') ->
      exists lg1 lg2,
        st' = logged st (lg1 ++ lg2)
        /\ scan_entries (E := Repeats.world) Demo.listing0
                        ([Dates.strict] ++ Repeats.bare :: [Dates.other]) [] st
           = (inr evs, logged st (lg1 ++ LogIssueParsing (KeyError "href") :: lg2)).
Proof.
  intros st.
  apply (link_without_href_is_dropped (E := Repeats.world) Demo.listing0 Repeats.bare
           (mkTag ∅) (mkTag {[ "datetime" := "2024-05-12" ]})
           [Dates.strict] [Dates.other] [] st).
  - reflexivity.
  - reflexivity.
  - reflexivity.
Defined.

(** ** Further properties: what the crawl touches *)

Section FrameFacts.
Context `{E : Env}.

Lemma grows_refl (st : State) : grows st st.
Proof. split; [reflexivity | exists []; now rewrite List.app_nil_r]. Qed.

Lemma grows_trans (a b c : State) : grows a b -> grows b c -> grows a c.
Proof.
  intros [F1 [m1 C1]] [F2 [m2 C2]]. split; [congruence|].
  exists (m1 ++ m2). now rewrite C2, C1, List.app_assoc.
Qed.

Lemma keeps_ret {A} (a : A) : keeps (mret a).
Proof. intros st. apply grows_refl. Qed.

Lemma keeps_raise {A} (e : exn) : keeps (@raise E A e).
Proof. intros st. apply grows_refl. Qed.

Lemma keeps_lift {A} (r : result A) : keeps (lift r).
Proof. destruct r; [apply keeps_raise | apply keeps_ret]. Qed.

Lemma keeps_log (msg : LogMsg) : keeps (log msg).
Proof.
  intros st. rewrite log_run.
  destruct (console_error msg); [apply grows_refl|].
  split; [reflexivity | now exists [msg]].
Qed.

Lemma keeps_get (url : string) : keeps (get url).
Proof.
  intros st. unfold get. destruct (requests_get url (world st)) as [r w]. simpl.
  split; [reflexivity | exists []; now rewrite List.app_nil_r].
Qed.

Lemma keeps_bind {A B} (m : M A) (f : A -> M B) :
  keeps m -> (forall a, keeps (f a)) -> keeps (m ≫= f).
Proof.
  intros Hm Hf st. rewrite bind_run. specialize (Hm st).
  destruct (m st) as [[e|a] st1]; simpl in *; [exact Hm|].
  eapply grows_trans; [exact Hm | apply Hf].
Qed.

Lemma keeps_try {A} (m : M A) (C : exn -> bool) (h : exn -> M A) :
  keeps m -> (forall e, keeps (h e)) -> keeps (try_except m C h).
Proof.
  intros Hm Hh st. unfold try_except. specialize (Hm st).
  destruct (m st) as [[e|a] st1]; simpl in *; [|exact Hm].
  destruct (C e); [|exact Hm]. eapply grows_trans; [exact Hm | apply Hh].
Qed.

Lemma keeps_for_each {A B} (xs : list A) (body : B -> A -> M B) :
  (forall acc x, keeps (body acc x)) -> forall acc, keeps (for_each xs acc body).
Proof.
  intros Hb. induction xs as [|x xs IH]; intros acc; simpl.
  - apply keeps_ret.
  - apply keeps_bind; [apply Hb | intros a; apply IH].
Qed.

Create HintDb frame.
#[local] Hint Resolve keeps_ret keeps_raise keeps_lift keeps_log keeps_get : frame.
#[local] Hint Extern 2 (keeps (_ ≫= _)) => apply keeps_bind; [|intros ?] : frame.
#[local] Hint Extern 2 (keeps (try_except _ _ _)) => apply keeps_try; [|intros ?] : frame.
#[local] Hint Extern 2 (keeps (for_each _ _ _)) => apply keeps_for_each; intros ? ? : frame.
#[local] Hint Extern 3 (keeps (match ?x with _ => _ end)) => destruct x : frame.

Lemma keeps_fetch (url : string) : keeps (fetch url).
Proof. unfold fetch. auto 10 with frame. Qed.

Lemma keeps_scan_entry (base_url : string) (events : list Event) (li : Li) :
  keeps (scan_entry base_url events li).
Proof. unfold scan_entry. auto 10 with frame. Qed.

Lemma keeps_extract (html base_url : string) :
  keeps (extract_event_links_and_dates html base_url).
Proof.
  unfold extract_event_links_and_dates, scan_entries.
  pose proof keeps_scan_entry. auto 10 with frame.
Qed.

Lemma keeps_resolve (acc : list Event) (evt : Event) : keeps (resolve acc evt).
Proof. unfold resolve. pose proof keeps_fetch. auto 12 with frame. Qed.

Lemma keeps_extract_marker_positions (start_url : string) :
  keeps (extract_marker_positions start_url).
Proof.
  unfold extract_marker_positions.
  pose proof keeps_fetch. pose proof keeps_extract. pose proof keeps_resolve.
  auto 12 with frame.
Qed.

Lemma keeps_crawl_pages (urls : list string) : keeps (crawl_pages urls).
Proof.
  unfold crawl_pages. pose proof keeps_extract_marker_positions. auto 10 with frame.
Qed.

(** The pages the main block asks for. *)
Lemma main_run (st : State) :
  main st
  = match crawl_pages page_urls (logged st [LogPanel]) with
    | (inr positions, st1) => generate_map positions "build/index.html" st1
    | (inl e, st1) => (inl e, st1)
    end.
Proof.
  unfold main. rewrite bind_run, log_plain by reflexivity. now rewrite bind_run.
Qed.

Lemma generate_map_frame (marker_positions : list Event) (output_file p : string) st :
  p <> output_file ->
  files (snd (generate_map marker_positions output_file st)) !! p = files st !! p.
Proof.
  intros Hp. destruct marker_positions as [|ev rest].
  - unfold generate_map. now rewrite log_plain by reflexivity.
  - unfold generate_map, mbind, M_bind, bind, save.
    destruct (write_error output_file (files st)); [reflexivity|].
    rewrite log_run. destruct (console_error (LogMapSaved output_file)); simpl;
      now apply lookup_insert_ne.
Qed.

End FrameFacts.

(** X6. Crawling the listing pages, however many and whatever they
    answer, and whether it returns or raises, changes no file, and takes
    no line off the console: it only adds lines at its end. *)
Theorem crawl_writes_no_file `{E : Env} (urls : list string) (st : State) :
  files (snd (crawl_pages urls st)) = files st
  /\ exists msgs, console (snd (crawl_pages urls st)) = console st ++ msgs.
Proof. apply keeps_crawl_pages. Qed.

(** X7. [generate_map] leaves the network alone and touches no file but
    the one at its output path, whether the list is empty, the write
    fails or the map is saved. *)
Theorem generate_map_touches_one_path `{E : Env}
        (marker_positions : list Event) (output_file p : string) (st : State) :
  p <> output_file ->
  files (snd (generate_map marker_positions output_file st)) !! p = files st !! p
  /\ world (snd (generate_map marker_positions output_file st)) = world st.
Proof.
  intros Hp. split; [now apply generate_map_frame|].
  destruct marker_positions as [|ev rest].
  - unfold generate_map. now rewrite log_plain by reflexivity.
  - unfold generate_map, mbind, M_bind, bind, save.
    destruct (write_error output_file (files st)); [reflexivity|].
    rewrite log_run. now destruct (console_error (LogMapSaved output_file)).
Qed.

Lemma generate_map_touches_one_path_witness :
  let st := @mkState TwoPages.world tt [] {[ "notes.txt" := build_map [] ]} in
  files (snd (generate_map (E := TwoPages.world) [TwoPages.resolved] "build/index.html" st))
        !! "notes.txt"
  = files st !! "notes.txt"
  /\ world (snd (generate_map (E := TwoPages.world) [TwoPages.resolved]
                              "build/index.html" st)) = world st.
Proof.
  intros st.
  apply (generate_map_touches_one_path (E := TwoPages.world) [TwoPages.resolved]
           "build/index.html" "notes.txt" st).
  discriminate.
Defined.

(** X8. A whole run of the program, whether it ends or raises, changes no
    file other than [build/index.html]. *)
Theorem main_writes_only_the_map `{E : Env} (p : string) (st : State) :
  p <> "build/index.html" ->
  files (snd (main st)) !! p = files st !! p.
Proof.
  intros Hp. rewrite main_run.
  destruct (keeps_crawl_pages page_urls (logged st [LogPanel])) as [Hf _].
  destruct (crawl_pages page_urls (logged st [LogPanel])) as [[e|positions] st1];
    simpl in Hf |- *.
  - now rewrite Hf.
  - rewrite (generate_map_frame positions "build/index.html" p st1 Hp). now rewrite Hf.
Qed.

Lemma main_writes_only_the_map_witness :
  let st := @mkState TwoPages.world tt [] {[ "notes.txt" := build_map [] ]} in
  files (snd (main (E := TwoPages.world) st)) !! "notes.txt" = files st !! "notes.txt".
Proof.
  intros st. apply (main_writes_only_the_map (E := TwoPages.world) "notes.txt" st).
  discriminate.
Defined.

(** ** Further properties: what the marker pattern finds *)

Module PatternFacts.
Import Re.

Lemma lang_eps_inv s : lang Eps s -> s = EmptyString.
Proof. now inversion 1. Qed.

Lemma lang_cat_inv r1 r2 s :
  lang (Cat r1 r2) s -> exists s1 s2, s = s1 +:+ s2 /\ lang r1 s1 /\ lang r2 s2.
Proof. inversion 1; subst. eauto. Qed.

Lemma lang_grp_inv i r s : lang (Grp i r) s -> lang r s.
Proof. now inversion 1. Qed.

Lemma lang_star_inv p s : lang (Star p) s -> Str.all p s = true.
Proof. now inversion 1. Qed.

Lemma lang_plus_inv p s : lang (plus p) s -> s <> EmptyString /\ Str.all p s = true.
Proof.
  intros H. apply lang_cat_inv in H as (s1 & s2 & -> & H1 & H2).
  inversion H1; subst. apply lang_star_inv in H2. simpl.
  split; [discriminate|]. now rewrite H0, H2.
Qed.

Lemma lang_lit_inv l : forall s, lang (lit l) s -> s = l.
Proof.
  induction l as [|c l IH]; intros s H; simpl in H.
  - now apply lang_eps_inv.
  - apply lang_cat_inv in H as (s1 & s2 & -> & H1 & H2).
    inversion H1; subst. apply Ascii.eqb_eq in H0 as <-. simpl. f_equal. now apply IH.
Qed.

(** The texts of the pattern's language are the marker constructions. *)
Lemma lang_shape (occ : string) :
  lang marker_pattern occ -> exists g1 g2, marker_shape occ g1 g2.
Proof.
  unfold marker_pattern. cbn [seq]. intros H.
  apply lang_cat_inv in H as (a1 & t1 & -> & L1 & H).
  apply lang_cat_inv in H as (w1 & t2 & -> & L2 & H).
  apply lang_cat_inv in H as (a3 & t3 & -> & L3 & H).
  apply lang_cat_inv in H as (w2 & t4 & -> & L4 & H).
  apply lang_cat_inv in H as (a5 & t5 & -> & L5 & H).
  apply lang_cat_inv in H as (w3 & t6 & -> & L6 & H).
  apply lang_cat_inv in H as (a7 & t7 & -> & L7 & H).
  apply lang_cat_inv in H as (w4 & t8 & -> & L8 & H).
  apply lang_cat_inv in H as (a9 & t9 & -> & L9 & H).
  apply lang_cat_inv in H as (w5 & t10 & -> & L10 & H).
  apply lang_cat_inv in H as (g1 & t11 & -> & L11 & H).
  apply lang_cat_inv in H as (w6 & t12 & -> & L12 & H).
  apply lang_cat_inv in H as (a13 & t13 & -> & L13 & H).
  apply lang_cat_inv in H as (w7 & t14 & -> & L14 & H).
  apply lang_cat_inv in H as (g2 & t15 & -> & L15 & H).
  apply lang_cat_inv in H as (w8 & t16 & -> & L16 & H).
  apply lang_cat_inv in H as (a17 & t17 & -> & L17 & H).
  apply lang_eps_inv in H as ->.
  apply lang_lit_inv in L1 as ->, L3 as ->, L5 as ->, L7 as ->, L9 as ->, L13 as ->,
    L17 as ->.
  apply lang_plus_inv in L2 as [N1 S1].
  apply lang_star_inv in L4, L6, L8, L10, L12, L14, L16.
  apply lang_grp_inv, lang_plus_inv in L11, L15.
  exists g1, g2, w1, w2, w3, w4, w5, w6, w7, w8.
  repeat split; try assumption; try apply L11; try apply L15.
  repeat constructor; assumption.
Qed.

Lemma search_from_sound r whole :
  forall s pos m,
    search_from r whole s pos = Some m ->
    exists a b, s = a +:+ b /\ match_at r whole b (pos + String.length a)%nat = Some m.
Proof.
  induction s as [|c t IH]; intros pos m H; simpl in H.
  - destruct (match_at r whole EmptyString pos) eqn:Hm; [|discriminate].
    exists EmptyString, EmptyString. simpl. rewrite Nat.add_0_r. split; congruence.
  - destruct (match_at r whole (String c t) pos) eqn:Hm.
    + exists EmptyString, (String c t). simpl. rewrite Nat.add_0_r. split; congruence.
    + destruct (IH _ _ H) as (a & b & -> & Hb).
      exists (String c a), b. simpl. rewrite Nat.add_succ_r. auto.
Qed.

Lemma search_from_finds r whole b :
  forall a pos,
    match_at r whole b (pos + String.length a)%nat <> None ->
    search_from r whole (a +:+ b) pos <> None.
Proof.
  induction a as [|c a IH]; intros pos H.
  - simpl in H. rewrite Nat.add_0_r in H. simpl.
    destruct b; simpl; destruct (match_at r whole _ pos); congruence.
  - simpl. destruct (match_at r whole _ pos); [discriminate|].
    apply IH. simpl in H. now rewrite Nat.add_succ_r in H.
Qed.

(** A match the search returns starts a marker construction whose
    coordinate texts are its two groups. *)
Lemma search_shape (s : string) (m : Match) :
  search marker_pattern s = Some m ->
  exists pre occ post,
    s = pre +:+ occ +:+ post /\ m_start m = String.length pre
    /\ marker_shape occ (group 1 m) (group 2 m).
Proof.
  intros H. apply search_from_sound in H as (a & b & -> & Hm). simpl in Hm.
  destruct (ReFacts.match_at_sound _ _ _ _ _ Hm) as (occ & post & -> & L).
  destruct (lang_shape _ L) as (g1 & g2 & Hs).
  destruct (MarkerFacts.shape_match _ _ _ Hs a post) as (m' & Hm' & Hst & <- & <-).
  assert (m' = m) by congruence. subst m'.
  exists a, occ, post. auto.
Qed.

End PatternFacts.

(** X17. Whenever the search for the marker pattern returns a match, the
    match starts a marker construction of the body - the fixed words with
    runs of blanks between them - and its two groups are the coordinate
    texts of that construction: not empty, and made of digits, hyphens
    and points only. *)
Theorem a_match_is_a_marker_construction (body : string) (m : Re.Match) :
  Re.search marker_pattern body = Some m ->
  (exists pre occ post,
      body = pre +:+ occ +:+ post /\ Re.m_start m = String.length pre
      /\ marker_shape occ (Re.group 1 m) (Re.group 2 m))
  /\ coord_text (Re.group 1 m) /\ coord_text (Re.group 2 m).
Proof.
  intros H. destruct (PatternFacts.search_shape _ _ H) as (pre & occ & post & Hb & Hs & Hm).
  split; [now exists pre, occ, post|].
  destruct Hm as (? & ? & ? & ? & ? & ? & ? & ? & _ & _ & G1 & G2 & _). auto.
Qed.

Lemma a_match_is_a_marker_construction_witness :
  let m := Re.mkMatch TwoMarkers.body 8 42 [(2, (37, 41)%nat); (1, (31, 36)%nat)] in
  (exists pre occ post,
      TwoMarkers.body = pre +:+ occ +:+ post /\ Re.m_start m = String.length pre
      /\ marker_shape occ (Re.group 1 m) (Re.group 2 m))
  /\ coord_text (Re.group 1 m) /\ coord_text (Re.group 2 m).
Proof.
  intros m. apply (a_match_is_a_marker_construction TwoMarkers.body m). reflexivity.
Defined.

(** X18. The search for the marker pattern finds something exactly in the
    bodies that hold a marker construction somewhere. *)
Theorem search_finds_marker_constructions (body : string) :
  Re.search marker_pattern body <> None
  <-> exists pre occ post g1 g2, body = pre +:+ occ +:+ post /\ marker_shape occ g1 g2.
Proof.
  split.
  - destruct (Re.search marker_pattern body) as [m|] eqn:H; [intros _|congruence].
    destruct (PatternFacts.search_shape _ _ H) as (pre & occ & post & Hb & _ & Hm).
    now exists pre, occ, post, (Re.group 1 m), (Re.group 2 m).
  - intros (pre & occ & post & g1 & g2 & -> & Hs).
    destruct (MarkerFacts.shape_match _ _ _ Hs pre post) as (m & Hm & _).
    unfold Re.search. apply PatternFacts.search_from_finds. simpl. now rewrite Hm.
Qed.

(** ** Further properties: the loop over the stubs *)

Section Loop.
Context `{E : Env}.

(** [resolve], case by case. *)
Lemma resolve_cases (acc : list Event) (evt : Event) (st : State) :
  resolve acc evt st =
  match requests_get (link evt) (world st) with
  | (inl e, w) =>
      if is_RequestException e
      then match console_error (LogErrorFetching (link evt) e) with
           | None => (inr acc,
                      mkState w (console st ++ [LogErrorFetching (link evt) e]) (files st))
           | Some d => (inl (MarkupError d), mkState w (console st) (files st))
           end
      else (inl e, mkState w (console st) (files st))
  | (inr page, w) =>
      if is_error_status (status_code page)
      then match console_error (LogErrorFetching (link evt)
                                                 (HTTPError (status_code page))) with
           | None => (inr acc,
                      mkState w (console st
                                 ++ [LogErrorFetching (link evt)
                                                      (HTTPError (status_code page))])
                              (files st))
           | Some d => (inl (MarkupError d), mkState w (console st) (files st))
           end
      else
        match Re.search marker_pattern (text page) with
        | None =>
            match console_error (LogNoMarker (link evt)) with
            | None => (inr acc, mkState w (console st ++ [LogNoMarker (link evt)]) (files st))
            | Some d => (inl (MarkupError d), mkState w (console st) (files st))
            end
        | Some m =>
            match PyFloat.float (Re.group 1 m), PyFloat.float (Re.group 2 m) with
            | inr la, inr lo =>
                (inr (acc ++ [mkEvent (link evt) (datetime evt) la lo]),
                 mkState w (console st ++ [LogFoundMarker la lo]) (files st))
            | inl e, _ => (inl e, mkState w (console st) (files st))
            | inr _, inl e => (inl e, mkState w (console st) (files st))
            end
        end
  end.
Proof.
  destruct (requests_get (link evt) (world st)) as [[e|page] w] eqn:Hg.
  - destruct (is_RequestException e) eqn:He.
    + apply resolve_fetch_fails. left. auto.
    + unfold resolve, try_except, fetch, get, mbind, M_bind, bind. rewrite Hg. simpl.
      now rewrite He.
  - destruct (is_error_status (status_code page)) eqn:Hs.
    + apply resolve_fetch_fails. right. exists page. auto.
    + destruct (Re.search marker_pattern (text page)) as [m|] eqn:Hm.
      * apply (resolve_found _ _ _ _ _ _ Hg Hs Hm).
      * apply (resolve_not_found _ _ _ _ _ Hg Hs Hm).
Qed.

Lemma resolve_returns (acc : list Event) (evt : Event) (st st' : State) (l : list Event) :
  resolve acc evt st = (inr l, st') ->
  l = acc \/ exists la lo, l = acc ++ [mkEvent (link evt) (datetime evt) la lo].
Proof.
  rewrite resolve_cases.
  destruct (requests_get (link evt) (world st)) as [[e|page] w].
  - destruct (is_RequestException e); [|discriminate].
    destruct (console_error _); [discriminate|]. intros [= <- _]; auto.
  - destruct (is_error_status (status_code page)).
    { destruct (console_error _); [discriminate|]. intros [= <- _]; auto. }
    destruct (Re.search marker_pattern (text page)) as [m|].
    + destruct (PyFloat.float (Re.group 1 m)) as [?|la]; [discriminate|].
      destruct (PyFloat.float (Re.group 2 m)) as [?|lo]; [discriminate|].
      intros [= <- _]. right. now exists la, lo.
    + destruct (console_error _); [discriminate|]. intros [= <- _]; auto.
Qed.

(** [float] fails exactly on the texts that are no decimal numbers. *)
Lemma float_fails (t : string) (e : exn) :
  PyFloat.float t = inl e -> e = ValueError t /\ PyFloat.parse_decimal t = None.
Proof.
  unfold PyFloat.float. destruct (PyFloat.parse_decimal t) as [[[? ?] ?]|]; [discriminate|].
  intros [= <-]. auto.
Qed.

Lemma resolve_raises (acc : list Event) (evt : Event) (st st' : State) (e : exn) :
  get_raises_request_exceptions ->
  resolve acc evt st = (inl e, st') ->
  (exists t, e = ValueError t /\ coord_text t /\ PyFloat.parse_decimal t = None)
  \/ (exists d, e = MarkupError d /\ cannot_print_for evt d).
Proof.
  intros Hnet. rewrite resolve_cases. unfold cannot_print_for.
  destruct (requests_get (link evt) (world st)) as [[x|page] w] eqn:Hg.
  - rewrite (Hnet _ _ _ _ Hg).
    destruct (console_error _) eqn:Hc; [|discriminate].
    intros [= <- _]. right. eauto.
  - destruct (is_error_status (status_code page)).
    { destruct (console_error _) eqn:Hc; [|discriminate].
      intros [= <- _]. right. eauto. }
    destruct (Re.search marker_pattern (text page)) as [m|] eqn:Hm.
    + destruct (PatternFacts.search_shape _ _ Hm)
        as (_ & _ & _ & _ & _ & _ & _ & _ & _ & _ & _ & _ & _ & _ & _ & G1 & G2 & _).
      destruct (PyFloat.float (Re.group 1 m)) as [x|la] eqn:F1.
      * apply float_fails in F1 as [-> F1]. intros [= <- _]. left. eauto.
      * destruct (PyFloat.float (Re.group 2 m)) as [x|lo] eqn:F2; [|discriminate].
        apply float_fails in F2 as [-> F2]. intros [= <- _]. left. eauto.
    + destruct (console_error _) eqn:Hc; [|discriminate].
      intros [= <- _]. right. eauto.
Qed.

(** The loop adds, in the order of the stubs, at most one event per stub,
    with the link and the date of that stub. *)
Lemma loop_returns (stubs : list Event) :
  forall acc st l st',
    for_each stubs acc resolve st = (inr l, st') ->
    exists added, l = acc ++ added /\ sublist (map key added) (map key stubs).
Proof.
  induction stubs as [|x rest IH]; intros acc st l st' H; simpl in H.
  - injection H as <- _. exists []. split; [now rewrite List.app_nil_r | constructor].
  - rewrite bind_run in H.
    destruct (resolve acc x st) as [[e|acc'] st1] eqn:Hr; [discriminate|].
    destruct (IH _ _ _ _ H) as (added & -> & Hsub).
    destruct (resolve_returns _ _ _ _ _ Hr) as [->|(la & lo & ->)].
    + exists added. split; [reflexivity | now apply sublist_cons].
    + exists (mkEvent (link x) (datetime x) la lo :: added).
      split; [now rewrite <- List.app_assoc | now apply sublist_skip].
Qed.

Lemma loop_raises (stubs : list Event) :
  get_raises_request_exceptions ->
  forall acc st e st',
    for_each stubs acc resolve st = (inl e, st') ->
    (exists t, e = ValueError t /\ coord_text t /\ PyFloat.parse_decimal t = None)
    \/ (exists evt d, In evt stubs /\ e = MarkupError d /\ cannot_print_for evt d).
Proof.
  intros Hnet. induction stubs as [|x rest IH]; intros acc st e st' H; simpl in H.
  - discriminate.
  - rewrite bind_run in H.
    destruct (resolve acc x st) as [[e0|acc'] st1] eqn:Hr.
    + injection H as <- _.
      destruct (resolve_raises _ _ _ _ _ Hnet Hr) as [Hv|(d & -> & Hd)]; [now left|].
      right. exists x, d. simpl. auto.
    + destruct (IH _ _ _ _ H) as [Hv|(evt & d & Hin & -> & Hd)]; [now left|].
      right. exists evt, d. simpl. auto.
Qed.

(** The crawl of a page that returned: the page gave nothing, or its
    listing was scanned and its stubs went through the loop. *)
Lemma crawl_of_page_returns (start_url : string) (st st' : State) (l : list Event) :
  extract_marker_positions start_url st = (inr l, st') ->
  l = []
  \/ exists response st0 events st1,
       extract_event_links_and_dates (text response) start_url st0 = (inr events, st1)
       /\ for_each (set_iter events) [] resolve st1 = (inr l, st').
Proof.
  rewrite extract_marker_positions_run.
  destruct (console_error (LogLoading start_url)); [discriminate|]. cbv zeta.
  destruct (requests_get start_url (world st)) as [[e|response] w].
  - destruct (is_RequestException e); [|discriminate].
    destruct (console_error _); [discriminate|]. intros [= <- _]. now left.
  - destruct (is_error_status (status_code response)).
    { destruct (console_error _); [discriminate|]. intros [= <- _]. now left. }
    rewrite bind_run.
    destruct (extract_event_links_and_dates (text response) start_url _)
      as [[x|events] st1] eqn:Hx; [discriminate|].
    intros H. right. eauto 6.
Qed.

End Loop.

(** X9. The crawl of one page resolves every stub at most once: the
    events it returns are pairwise different in link and date. *)
Theorem page_events_are_distinct `{E : Env}
        (start_url : string) (st st' : State) (l : list Event) :
  extract_marker_positions start_url st = (inr l, st') ->
  NoDup (map key l).
Proof.
  intros H.
  apply crawl_of_page_returns in H as [->|(response & st0 & events & st1 & Hx & H)];
    [constructor|].
  apply loop_returns in H as (added & -> & Hsub). simpl.
  refine (sublist_NoDup _ _ _ Hsub).
  assert (P : Permutation (map key (set_iter events)) (map key events))
    by apply Permutation_map, set_iter_perm.
  rewrite P. apply extract_returns in Hx as [Hx _].
  apply (scan_pure_stubs start_url (select_entries (text response)) [] events);
    [constructor | constructor | exact Hx].
Qed.

Lemma page_events_are_distinct_witness :
  NoDup (map key [ mkEvent Demo.paris_run (DateTime.mk 2024 4 5)
                           (PyFloat.literal "48.85") (PyFloat.literal "2.35");
                   mkEvent Demo.lyon_swim (DateTime.mk 2024 5 12)
                           (PyFloat.literal "45.76") (PyFloat.literal "4.83") ]).
Proof.
  apply (page_events_are_distinct (E := Repeats.world) Demo.listing0
           (Demo.start Repeats.world tt)
           (snd (extract_marker_positions (E := Repeats.world) Demo.listing0
                                          (Demo.start Repeats.world tt)))).
  vm_compute. reflexivity.
Defined.

(** X10. When [requests.get] raises nothing but [RequestException]s, an
    exception that leaves the loop over the stubs is the [ValueError] of
    [float], for a coordinate text of a marker - digits, hyphens and
    points - that is no decimal number; or it is the [MarkupError] of the
    console, for a line that carries the link of one of the stubs. *)
Theorem what_escapes_the_loop `{E : Env}
        (stubs acc : list Event) (st st' : State) (e : exn) :
  get_raises_request_exceptions ->
  for_each stubs acc resolve st = (inl e, st') ->
  (exists t, e = ValueError t /\ coord_text t /\ PyFloat.parse_decimal t = None)
  \/ (exists evt d, In evt stubs /\ e = MarkupError d /\ cannot_print_for evt d).
Proof. intros Hnet. now apply loop_raises. Qed.

Lemma what_escapes_the_loop_witness :
  let stub := DetailPages.stub in
  (exists t, ValueError "1.2.3" = ValueError t /\ coord_text t
             /\ PyFloat.parse_decimal t = None)
  \/ (exists evt d,
         In evt [stub Demo.paris_run; stub Demo.lyon_swim; stub Demo.nice_bike]
         /\ ValueError "1.2.3" = MarkupError d
         /\ cannot_print_for (E := ThreeEvents.malformed) evt d).
Proof.
  intros stub.
  apply (what_escapes_the_loop (E := ThreeEvents.malformed)
           [stub Demo.paris_run; stub Demo.lyon_swim; stub Demo.nice_bike] []
           (Demo.start ThreeEvents.malformed tt)
           (snd (for_each (E := ThreeEvents.malformed)
                          [stub Demo.paris_run; stub Demo.lyon_swim; stub Demo.nice_bike]
                          [] resolve (Demo.start ThreeEvents.malformed tt)))).
  - intros url w e w' H. simpl in H. unfold Demo.get_from in H.
    destruct (Demo.lookup url _); [discriminate|]. injection H as <- _. reflexivity.
  - vm_compute. reflexivity.
Defined.

(** ** Further properties: one failed detail page, a run without network *)

Section Failing.
Context `{E : Env}.

Lemma plain_page_urls : forallb plain_text page_urls = true.
Proof. vm_compute. reflexivity. Qed.

Lemma extract_offline (start_url : string) (st : State) :
  offline -> plain_text start_url = true ->
  exists st', extract_marker_positions start_url st = (inr [], st').
Proof.
  intros Hoff Hp. rewrite extract_marker_positions_run.
  rewrite (console_prints_plain (LogLoading start_url)) by exact Hp. cbv zeta.
  destruct (Hoff start_url (world st)) as (e & w & Hg & He & Hc).
  rewrite Hg, He, (Hc Hp). eauto.
Qed.

Lemma crawl_offline (urls : list string) :
  offline -> forallb plain_text urls = true ->
  forall st, exists st', crawl_pages urls st = (inr [], st').
Proof.
  intros Hoff. induction urls as [|u urls IH]; intros Hp st.
  - eexists. reflexivity.
  - simpl in Hp. apply andb_prop in Hp as [Hu Hp].
    rewrite crawl_pages_cons, bind_run.
    destruct (extract_offline u st Hoff Hu) as [st1 ->]. rewrite bind_run.
    destruct (IH Hp st1) as [st2 ->]. eexists. reflexivity.
Qed.

End Failing.

(** X11. A detail page that cannot be fetched (a [RequestException], or a
    4xx or 5xx status) costs its own event only: where the console prints
    the line that reports the failure, nothing is added for the event and
    the loop goes on with the remaining stubs and the events resolved so
    far; where it cannot, the loop ends with the [MarkupError] of the
    console. *)
Theorem failed_detail_fetch_costs_one_event `{E : Env}
        (evt : Event) (rest acc : list Event) (st : State) (e : exn) (w : World) :
  fetch_fails (link evt) st e w ->
  for_each (evt :: rest) acc resolve st
  = match console_error (LogErrorFetching (link evt) e) with
    | None =>
        for_each rest acc resolve
                 (mkState w (console st ++ [LogErrorFetching (link evt) e]) (files st))
    | Some d => (inl (MarkupError d), mkState w (console st) (files st))
    end.
Proof.
  intros Hf. simpl. rewrite bind_run, (resolve_fetch_fails acc evt st e w Hf).
  now destruct (console_error (LogErrorFetching (link evt) e)).
Qed.

Lemma failed_detail_fetch_witness :
  let stub := DetailPages.stub in
  for_each (E := ThreeEvents.unreachable)
           [stub Demo.lyon_swim; stub Demo.nice_bike] [stub Demo.paris_run] resolve
           (Demo.start ThreeEvents.unreachable tt)
  = for_each (E := ThreeEvents.unreachable)
             [stub Demo.nice_bike] [stub Demo.paris_run] resolve
             (@mkState ThreeEvents.unreachable tt
                       [LogErrorFetching Demo.lyon_swim
                                         (RequestException "connection refused")] ∅).
Proof.
  intros stub.
  apply (failed_detail_fetch_costs_one_event (E := ThreeEvents.unreachable)
           (stub Demo.lyon_swim) [stub Demo.nice_bike] [stub Demo.paris_run]
           (Demo.start ThreeEvents.unreachable tt)
           (RequestException "connection refused") tt).
  left. split; reflexivity.
Defined.

(** X12. When no URL can be fetched, a run of the program ends without
    raising and without writing a file; its last line on the console says
    that there is nothing to plot. *)
Theorem run_without_network `{E : Env} (st : State) :
  offline ->
  exists st' msgs,
    main st = (inr tt, st')
    /\ files st' = files st
    /\ console st' = console st ++ msgs ++ [LogNoMarkersToPlot].
Proof.
  intros Hoff. rewrite main_run.
  destruct (crawl_offline page_urls Hoff plain_page_urls (logged st [LogPanel]))
    as [st1 Hc].
  destruct (keeps_crawl_pages page_urls (logged st [LogPanel])) as [Hf [msgs Hm]].
  rewrite Hc in Hf, Hm |- *. simpl in Hf, Hm.
  unfold generate_map. rewrite log_plain by reflexivity.
  eexists _, (LogPanel :: msgs). split; [reflexivity|]. simpl. split; [exact Hf|].
  rewrite Hm. now rewrite <- !List.app_assoc.
Qed.

Lemma run_without_network_witness :
  exists st' msgs,
    main (E := Demo.env [] []) (Demo.start (Demo.env [] []) tt) = (inr tt, st')
    /\ files st' = ∅
    /\ console st' = [] ++ msgs ++ [LogNoMarkersToPlot].
Proof.
  apply (run_without_network (E := Demo.env [] []) (Demo.start (Demo.env [] []) tt)).
  intros url w. exists (RequestException "connection refused"), tt.
  split; [reflexivity|]. split; [reflexivity|].
  intros Hp. apply (console_prints_plain (Env := Demo.env [] [])).
  simpl. now rewrite Hp.
Defined.

(** ** Further properties: the map, the popup, the title *)

Module TitleFacts.

Lemma prefix_app (p x : string) : String.prefix p (p +:+ x) = true.
Proof.
  induction p as [|c p IH]; simpl; [now destruct x|].
  destruct (ascii_dec c c); [exact IH | congruence].
Qed.

Lemma substring_all (x : string) : substring 0 (String.length x) x = x.
Proof. induction x as [|c x IH]; simpl; [reflexivity | now rewrite IH]. Qed.

Lemma removeprefix_app (p x : string) : Str.removeprefix p (p +:+ x) = x.
Proof.
  unfold Str.removeprefix. rewrite prefix_app, StrFacts.length_app.
  replace (String.length p + String.length x - String.length p)%nat
    with (String.length x) by lia.
  rewrite <- (Nat.add_0_r (String.length p)) at 1.
  rewrite StrFacts.substring_skip. apply substring_all.
Qed.

Lemma endswith_at_app (suf x : string) :
  Str.endswith_at suf (x +:+ suf) (String.length x) = true.
Proof.
  induction x as [|c x IH]; simpl; [|exact IH].
  destruct suf; simpl; [reflexivity|]. now rewrite Ascii.eqb_refl, String.eqb_refl.
Qed.

Lemma removesuffix_app (suf x : string) : Str.removesuffix suf (x +:+ suf) = x.
Proof.
  unfold Str.removesuffix, Str.endswith. rewrite StrFacts.length_app.
  replace (String.length x + String.length suf - String.length suf)%nat
    with (String.length x) by lia.
  rewrite endswith_at_app.
  replace (String.length suf <=? String.length x + String.length suf)%nat with true
    by (symmetry; apply Nat.leb_le; lia).
  simpl. apply StrFacts.substring_take.
Qed.

Lemma contains_prefix (x hay : string) :
  String.prefix x hay = true -> Str.contains x hay = true.
Proof. intros H. destruct hay; cbn [Str.contains]; now rewrite H. Qed.

Lemma contains_app (a x b : string) : Str.contains x (a +:+ x +:+ b) = true.
Proof.
  induction a as [|c a IH].
  - change (EmptyString +:+ x +:+ b) with (x +:+ b).
    apply contains_prefix, prefix_app.
  - change (String c a +:+ x +:+ b) with (String c (a +:+ x +:+ b)).
    cbn [Str.contains]. rewrite IH. apply orb_true_r.
Qed.

Lemma upper_of_lower (c : ascii) :
  Chars.is_lower c = true -> Chars.one "-" (Chars.to_upper c) = false.
Proof. destruct c as [[] [] [] [] [] [] [] []]; vm_compute; congruence. Qed.

Lemma lower_of_upper (c : ascii) :
  Chars.is_upper c = true -> Chars.one "-" (Chars.to_lower c) = false.
Proof. destruct c as [[] [] [] [] [] [] [] []]; vm_compute; congruence. Qed.

Lemma lower_no_hyphen (c : ascii) : Chars.is_lower c = true -> Chars.one "-" c = false.
Proof. destruct c as [[] [] [] [] [] [] [] []]; vm_compute; congruence. Qed.

Lemma upper_no_hyphen (c : ascii) : Chars.is_upper c = true -> Chars.one "-" c = false.
Proof. destruct c as [[] [] [] [] [] [] [] []]; vm_compute; congruence. Qed.

Lemma replace_no_hyphen (s : string) : no_hyphen (Str.replace_char "-" " " s).
Proof.
  unfold no_hyphen. induction s as [|c s IH]; [reflexivity|].
  cbn [Str.replace_char]. destruct (Ascii.eqb c "-") eqn:Hc.
  - exact IH.
  - cbn [Str.all]. rewrite IH, andb_true_r. unfold Chars.one.
    now rewrite Ascii.eqb_sym, Hc.
Qed.

Lemma title_no_hyphen (s : string) :
  no_hyphen s -> forall prev, no_hyphen (Str.title_from prev s).
Proof.
  unfold no_hyphen. induction s as [|c s IH]; intros H prev; [reflexivity|].
  cbn [Str.all] in H. apply andb_prop in H as [Hc Hs]. cbn [Str.title_from].
  destruct (Chars.is_lower c) eqn:Hl; [|destruct (Chars.is_upper c) eqn:Hu];
    cbn [Str.all]; rewrite (IH Hs), andb_true_r.
  - destruct prev; [now rewrite lower_no_hyphen | now rewrite upper_of_lower].
  - destruct prev; [now rewrite lower_of_upper | now rewrite upper_no_hyphen].
  - exact Hc.
Qed.

Lemma children_build_map (l : list Event) :
  forall m, children (fold_left (fun m event => add_child (marker_of event) m) l m)
            = children m ++ map marker_of l.
Proof.
  induction l as [|x l IH]; intros m; simpl; [now rewrite List.app_nil_r|].
  rewrite IH. simpl. now rewrite <- List.app_assoc.
Qed.

End TitleFacts.

(** X13. The map [generate_map] builds holds the tile layer of a new
    map, then the reset button, and then one marker per event, in the
    order of the list, each at the coordinates of its event and with the
    popup of its event. *)
Theorem one_marker_per_event (marker_positions : list Event) :
  children (build_map marker_positions)
  = ChildTileLayer "OpenStreetMap" :: ChildButton reset_button
    :: map marker_of marker_positions
  /\ markers (build_map marker_positions)
     = map (fun e => ((lat e, lon e), mkPopup (popup_html e) 200 100 200)) marker_positions.
Proof.
  assert (H : children (build_map marker_positions)
              = ChildTileLayer "OpenStreetMap" :: ChildButton reset_button
                :: map marker_of marker_positions).
  { unfold build_map. now rewrite TitleFacts.children_build_map. }
  split; [exact H|]. unfold markers. rewrite H. simpl.
  clear H. induction marker_positions as [|x l IH]; simpl; [reflexivity|].
  now f_equal.
Qed.

(** X14. For a link of the calendar site, that is the site's prefix, a
    slug and [.html], the title is the slug alone, hyphens turned into
    blanks and in title case; stated for slugs written in ASCII, where
    the letters that [str.title] cases are the letters [a] to [z] and
    [A] to [Z]. *)
Theorem title_of_calendar_link (slug : string) (d : DateTime.datetime) (la lo : spec_float) :
  ascii_text slug ->
  title (mkEvent (calendar_prefix +:+ slug +:+ ".html") d la lo)
  = Str.title (Str.replace_char "-" " " slug).
Proof.
  intros _. unfold title, calendar_prefix. cbn [link].
  now rewrite TitleFacts.removeprefix_app, TitleFacts.removesuffix_app.
Qed.

Lemma title_of_calendar_link_witness :
  title (mkEvent (calendar_prefix +:+ "paris-run" +:+ ".html") (DateTime.mk 2024 4 5)
                 float0 float0)
  = Str.title (Str.replace_char "-" " " "paris-run").
Proof.
  apply (title_of_calendar_link "paris-run" (DateTime.mk 2024 4 5) float0 float0).
  reflexivity.
Defined.

(** X15. The title of an event never contains a hyphen, whatever its
    link. *)
Theorem title_has_no_hyphen (e : Event) : no_hyphen (title e).
Proof.
  unfold title, Str.title. apply TitleFacts.title_no_hyphen, TitleFacts.replace_no_hyphen.
Qed.

(** X16. The popup of an event contains the event's link, its title and
    its date as [strftime] prints it. *)
Theorem popup_shows_link_title_date (e : Event) :
  Str.contains (link e) (popup_html e) = true
  /\ Str.contains (title e) (popup_html e) = true
  /\ Str.contains (DateTime.strftime (datetime e)) (popup_html e) = true.
Proof.
  unfold popup_html. repeat split.
  - rewrite <- (StrFacts.app_assoc "<a href=" q). apply TitleFacts.contains_app.
  - replace ("<a href=" +:+ q +:+ link e +:+ q +:+ " target=" +:+ q +:+ "_blank" +:+ q
             +:+ "><b>" +:+ title e +:+ "</b></a><br>Date: "
             +:+ DateTime.strftime (datetime e))
      with (("<a href=" +:+ q +:+ link e +:+ q +:+ " target=" +:+ q +:+ "_blank" +:+ q
             +:+ "><b>") +:+ title e +:+ "</b></a><br>Date: "
            +:+ DateTime.strftime (datetime e))
      by (now rewrite !StrFacts.app_assoc).
    apply TitleFacts.contains_app.
  - replace ("<a href=" +:+ q +:+ link e +:+ q +:+ " target=" +:+ q +:+ "_blank" +:+ q
             +:+ "><b>" +:+ title e +:+ "</b></a><br>Date: "
             +:+ DateTime.strftime (datetime e))
      with (("<a href=" +:+ q +:+ link e +:+ q +:+ " target=" +:+ q +:+ "_blank" +:+ q
             +:+ "><b>" +:+ title e +:+ "</b></a><br>Date: ")
            +:+ DateTime.strftime (datetime e) +:+ EmptyString)
      by (now rewrite !StrFacts.app_assoc, StrFacts.app_nil_r).
    apply TitleFacts.contains_app.
Qed.

(** ** Further properties: the assets of the button *)

Module ButtonFacts.
Import Button.

Lemma get_add_same (c : Asset) (n : string) (cs : Children) :
  get_child n (add_child c n cs) = Some c.
Proof.
  induction cs as [|[m x] cs IH]; simpl.
  - now rewrite String.eqb_refl.
  - destruct (String.eqb m n) eqn:H; simpl; rewrite H; [reflexivity | exact IH].
Qed.

Lemma get_add_other (c : Asset) (n k : string) (cs : Children) :
  k <> n -> get_child k (add_child c n cs) = get_child k cs.
Proof.
  intros Hk. induction cs as [|[m x] cs IH]; simpl.
  - destruct (String.eqb n k) eqn:H; [|reflexivity].
    apply String.eqb_eq in H. congruence.
  - destruct (String.eqb m n) eqn:H; simpl.
    + apply String.eqb_eq in H as ->.
      destruct (String.eqb n k) eqn:H'; [|reflexivity].
      apply String.eqb_eq in H'. congruence.
    + now rewrite IH.
Qed.

Lemma add_bound (c : Asset) (n : string) (cs : Children) :
  get_child n cs = Some c -> add_child c n cs = cs.
Proof.
  induction cs as [|[m x] cs IH]; simpl; [discriminate|].
  destruct (String.eqb m n) eqn:H; [now intros [= ->] | intros G; now rewrite IH].
Qed.

Lemma names_add (c : Asset) (n : string) (cs : Children) :
  map fst (add_child c n cs)
  = match get_child n cs with
    | Some _ => map fst cs
    | None => map fst cs ++ [n]
    end.
Proof.
  induction cs as [|[m x] cs IH]; simpl; [reflexivity|].
  destruct (String.eqb m n) eqn:H; simpl; [reflexivity|].
  rewrite IH. now destruct (get_child n cs).
Qed.

Lemma get_none_names (n : string) (cs : Children) :
  get_child n cs = None -> ~ In n (map fst cs).
Proof.
  induction cs as [|[m x] cs IH]; simpl; [tauto|].
  destruct (String.eqb m n) eqn:H; [discriminate|].
  intros G [->|Hin]; [now rewrite String.eqb_refl in H | now apply IH].
Qed.

Lemma names_unique_add (c : Asset) (n : string) (cs : Children) :
  NoDup (map fst cs) -> NoDup (map fst (add_child c n cs)).
Proof.
  intros Hn. rewrite names_add. destruct (get_child n cs) eqn:G; [exact Hn|].
  apply NoDup_app. repeat split; trivial.
  - intros x Hx Hx'. apply list_elem_of_In in Hx, Hx'. destruct Hx' as [Heq|[]].
    subst x. now apply (get_none_names n cs G).
  - apply NoDup_singleton.
Qed.

Lemma length_add (c : Asset) (n : string) (cs : Children) :
  (length (add_child c n cs) <= S (length cs))%nat.
Proof.
  induction cs as [|[m x] cs IH]; simpl; [lia|].
  destruct (String.eqb m n); simpl; lia.
Qed.

End ButtonFacts.

(** X19. When [super().render()] returns and the root is a [Figure],
    [JsButton.render] binds the three asset names in the figure's header
    to the script and the two style sheets, leaves every other name of
    the header bound as it was, adds at most three children, and leaves
    the other parts of the figure alone.  When the root is no [Figure] it
    raises an [AssertionError]. *)
Theorem render_binds_three_assets
        (super_render : Button.Root -> result Button.Root) (root : Button.Root) :
  match super_render root with
  | inl e => Button.render super_render root = Button.SuperRaised e
  | inr Button.NotFigure =>
      exists msg, Button.render super_render root = Button.AssertionError msg
  | inr (Button.IsFigure f) =>
      exists f',
        Button.render super_render root = Button.Rendered f'
        /\ Button.get_child "Control.EasyButton.js" (Button.header f')
           = Some Button.easy_button_js
        /\ Button.get_child "Control.EasyButton.css" (Button.header f')
           = Some Button.easy_button_css
        /\ Button.get_child "Control.FontAwesome.css" (Button.header f')
           = Some Button.font_awesome_css
        /\ (forall k, ~ In k Button.asset_names ->
                      Button.get_child k (Button.header f')
                      = Button.get_child k (Button.header f))
        /\ (length (Button.header f') <= length (Button.header f) + 3)%nat
        /\ Button.html f' = Button.html f /\ Button.script f' = Button.script f
  end.
Proof.
  unfold Button.render. destruct (super_render root) as [e|[f|]]; [reflexivity| |eauto].
  eexists. split; [reflexivity|]. simpl. unfold Button.add_assets.
  repeat split.
  - rewrite !ButtonFacts.get_add_other by discriminate. apply ButtonFacts.get_add_same.
  - rewrite ButtonFacts.get_add_other by discriminate. apply ButtonFacts.get_add_same.
  - apply ButtonFacts.get_add_same.
  - intros k Hk. simpl in Hk.
    rewrite !ButtonFacts.get_add_other; [reflexivity | | |]; intros ->; tauto.
  - pose proof (ButtonFacts.length_add Button.easy_button_js "Control.EasyButton.js"
                  (Button.header f)).
    pose proof (ButtonFacts.length_add Button.easy_button_css "Control.EasyButton.css"
                  (Button.add_child Button.easy_button_js "Control.EasyButton.js"
                     (Button.header f))).
    pose proof (ButtonFacts.length_add Button.font_awesome_css "Control.FontAwesome.css"
                  (Button.add_child Button.easy_button_css "Control.EasyButton.css"
                     (Button.add_child Button.easy_button_js "Control.EasyButton.js"
                        (Button.header f)))).
    lia.
Qed.

(** X20. Adding the assets of the button to a header that has them
    changes nothing: however many buttons a map has and however often they
    are rendered, each asset stands once in the header; and the names of
    the header stay pairwise different. *)
Theorem assets_are_added_once (h : Button.Children) :
  Button.add_assets (Button.add_assets h) = Button.add_assets h
  /\ (NoDup (map fst h) -> NoDup (map fst (Button.add_assets h))).
Proof.
  split.
  - unfold Button.add_assets at 1.
    rewrite (ButtonFacts.add_bound Button.easy_button_js).
    + rewrite (ButtonFacts.add_bound Button.easy_button_css).
      * apply ButtonFacts.add_bound. unfold Button.add_assets.
        apply ButtonFacts.get_add_same.
      * unfold Button.add_assets.
        rewrite ButtonFacts.get_add_other by discriminate. apply ButtonFacts.get_add_same.
    + unfold Button.add_assets.
      rewrite !ButtonFacts.get_add_other by discriminate. apply ButtonFacts.get_add_same.
  - intros Hn. unfold Button.add_assets. now repeat apply ButtonFacts.names_unique_add.
Qed.

(** ** Further properties: a whole run, the loop, an empty listing *)

(** X21. A run of the program is the crawl of the twenty pages followed
    by [generate_map]: when the crawl raises, the run raises the same
    exception and no file was written; when the crawl finds nothing, the
    run logs that and writes nothing; otherwise the one file it writes is
    the map of all the positions found, placed among the files as they
    were when the run began, unless the write fails. *)
Theorem run_is_crawl_then_map `{E : Env} (st : State) :
  let path := "build/index.html" in
  match crawl_pages page_urls (logged st [LogPanel]) with
  | (inl e, st1) => main st = (inl e, st1) /\ files st1 = files st
  | (inr [], st1) =>
      main st = (inr tt, logged st1 [LogNoMarkersToPlot]) /\ files st1 = files st
  | (inr (ev :: rest), st1) =>
      main st
      = match write_error path (files st) with
        | Some e => (inl e, st1)
        | None => (inr tt,
                   mkState (world st1) (console st1 ++ [LogMapSaved path])
                           (<[path := build_map (ev :: rest)]> (files st)))
        end
      /\ files st1 = files st
  end.
Proof.
  intros path. rewrite main_run.
  destruct (keeps_crawl_pages page_urls (logged st [LogPanel])) as [Hf _].
  destruct (crawl_pages page_urls (logged st [LogPanel])) as [[e|[|ev rest]] st1];
    simpl in Hf; split; trivial.
  - unfold generate_map. now rewrite log_plain by reflexivity.
  - unfold generate_map, mbind, M_bind, bind, save. rewrite Hf.
    destruct (write_error _ (files st)).
    + destruct st1; simpl in *. now subst.
    + now rewrite log_plain by reflexivity.
Qed.

(** X22. The loop over the stubs returns the events it was given,
    unchanged and in front, followed by at most one event per stub, in the
    order of the stubs, each with the link and the date of its stub. *)
Theorem resolved_events_follow_the_stubs `{E : Env}
        (stubs acc l : list Event) (st st' : State) :
  for_each stubs acc resolve st = (inr l, st') ->
  exists added,
    l = acc ++ added
    /\ sublist (map key added) (map key stubs)
    /\ (length added <= length stubs)%nat.
Proof.
  intros H. destruct (loop_returns _ _ _ _ _ H) as (added & -> & Hsub).
  exists added. repeat split; trivial.
  apply sublist_length in Hsub. now rewrite !length_map in Hsub.
Qed.

Lemma resolved_events_follow_the_stubs_witness :
  let stub := DetailPages.stub in
  let l := [ stub Demo.paris_run;
             mkEvent Demo.nice_bike (DateTime.mk 2024 4 5)
                     (PyFloat.literal "43.70") (PyFloat.literal "7.26") ] in
  exists added,
    l = [stub Demo.paris_run] ++ added
    /\ sublist (map key added) (map key [stub Demo.lyon_swim; stub Demo.nice_bike])
    /\ (length added <= 2)%nat.
Proof.
  intros stub l.
  apply (resolved_events_follow_the_stubs (E := ThreeEvents.unreachable)
           [stub Demo.lyon_swim; stub Demo.nice_bike] [stub Demo.paris_run] l
           (Demo.start ThreeEvents.unreachable tt)
           (snd (for_each (E := ThreeEvents.unreachable)
                          [stub Demo.lyon_swim; stub Demo.nice_bike]
                          [stub Demo.paris_run] resolve
                          (Demo.start ThreeEvents.unreachable tt)))).
  vm_compute. reflexivity.
Defined.

(** X23. A listing page that is fetched but has no entry gives no event:
    where the console prints the line that announces the page, the crawl
    of the page returns the empty list and logs that it found 0 events,
    without fetching anything else. *)
Theorem empty_listing_gives_nothing `{E : Env}
        (start_url : string) (st : State) (response : Response) (w : World) :
  console_error (LogLoading start_url) = None ->
  requests_get start_url (world st) = (inr response, w) ->
  is_error_status (status_code response) = false ->
  select_entries (text response) = [] ->
  extract_marker_positions start_url st
  = (inr [], mkState w (console st ++ [LogLoading start_url; LogEventsFound 0]) (files st)).
Proof.
  intros Hl Hg Hs He. rewrite extract_marker_positions_run, Hl. cbv zeta.
  rewrite Hg, Hs, bind_run, extract_run, He. simpl.
  assert (Hi : set_iter [] = []).
  { apply Permutation_nil. apply Permutation_sym, set_iter_perm. }
  rewrite Hi. simpl. unfold mret, M_ret, ret, logged. simpl.
  now rewrite <- List.app_assoc.
Qed.

Lemma empty_listing_gives_nothing_witness :
  extract_marker_positions (E := EmptyListing.world) Demo.listing0
                           (Demo.start EmptyListing.world tt)
  = (inr [], @mkState EmptyListing.world tt
                      [LogLoading Demo.listing0; LogEventsFound 0] ∅).
Proof.
  apply (empty_listing_gives_nothing (E := EmptyListing.world) Demo.listing0
           (Demo.start EmptyListing.world tt) (Demo.ok (Demo.page_of [])) tt).
  - reflexivity.
  - reflexivity.
  - reflexivity.
  - reflexivity.
Defined.
